(** * arducli: register-indexed enumeration and decode engine

    A shallow embedding of [arducli.py]: the register map, the lookup
    tables, the integer formatters used by its f-strings, the firmware
    version decoders, the sentinel-terminated enumeration loops and the
    probe driver, over an abstract I2C transport. *)

From Stdlib Require Import ZArith List String Ascii Bool Lia.
From Stdlib Require Import DecimalString HexadecimalString.
Import ListNotations.

Local Open Scope string_scope.
Local Open Scope Z_scope.

(* ================================================================= *)
(** ** Register map *)

Module Reg.

Definition DEVICE_REG_BASE : Z := 0x0100.
Definition PIXFORMAT_REG_BASE : Z := 0x0200.
Definition FORMAT_REG_BASE : Z := 0x0300.
Definition CTRL_REG_BASE : Z := 0x0400.
Definition IPC_REG_BASE : Z := 0x0600.
Definition STREAM_ON : Z := Z.lor DEVICE_REG_BASE 0x0000.
Definition DEVICE_VERSION_REG : Z := Z.lor DEVICE_REG_BASE 0x0001.
Definition SENSOR_ID_REG : Z := Z.lor DEVICE_REG_BASE 0x0002.
Definition DEVICE_ID_REG : Z := Z.lor DEVICE_REG_BASE 0x0003.
Definition FIRMWARE_SENSOR_ID_REG : Z := Z.lor DEVICE_REG_BASE 0x0005.
Definition UNIQUE_ID_REG : Z := Z.lor DEVICE_REG_BASE 0x0006.
Definition SYSTEM_IDLE_REG : Z := Z.lor DEVICE_REG_BASE 0x0007.
Definition SOFT_VERSION_LEN_REG : Z := Z.lor DEVICE_REG_BASE 0x00F0.
Definition SOFT_VERSION_INDEX_REG : Z := Z.lor DEVICE_REG_BASE 0x00F1.
Definition SOFT_VERSION_REG : Z := Z.lor DEVICE_REG_BASE 0x00F2.
Definition PIXFORMAT_INDEX_REG : Z := Z.lor PIXFORMAT_REG_BASE 0x0000.
Definition PIXFORMAT_TYPE_REG : Z := Z.lor PIXFORMAT_REG_BASE 0x0001.
Definition PIXFORMAT_ORDER_REG : Z := Z.lor PIXFORMAT_REG_BASE 0x0002.
Definition MIPI_LANES_REG : Z := Z.lor PIXFORMAT_REG_BASE 0x0003.
Definition RESOLUTION_INDEX_REG : Z := Z.lor FORMAT_REG_BASE 0x0000.
Definition FORMAT_WIDTH_REG : Z := Z.lor FORMAT_REG_BASE 0x0001.
Definition FORMAT_HEIGHT_REG : Z := Z.lor FORMAT_REG_BASE 0x0002.
Definition CTRL_INDEX_REG : Z := Z.lor CTRL_REG_BASE 0x0000.
Definition CTRL_ID_REG : Z := Z.lor CTRL_REG_BASE 0x0001.
Definition CTRL_MIN_REG : Z := Z.lor CTRL_REG_BASE 0x0002.
Definition CTRL_MAX_REG : Z := Z.lor CTRL_REG_BASE 0x0003.
Definition CTRL_DEF_REG : Z := Z.lor CTRL_REG_BASE 0x0005.
Definition CTRL_VALUE_REG : Z := Z.lor CTRL_REG_BASE 0x0006.

End Reg.
Export Reg.

Definition NO_DATA_AVAILABLE : Z := 0xFFFFFFFE.

(** The id of the Framerate control, the literal tested by
    [enum_resolutions]. *)
Definition FRAMERATE_ID : Z := 0x981906.

(* ================================================================= *)
(** ** Dictionaries with integer keys

    The tables are Python dict literals; [dict_get] is [dict.get] with a
    default, [dict_update] is [dict.update]. *)

Definition dict := list (Z * string).

Fixpoint dict_find (d : dict) (k : Z) : option string :=
  match d with
  | [] => None
  | (k', v) :: d' => if k' =? k then Some v else dict_find d' k
  end.

Definition dict_get (d : dict) (k : Z) (default : string) : string :=
  match dict_find d k with
  | Some v => v
  | None => default
  end.

Fixpoint dict_set (d : dict) (k : Z) (v : string) : dict :=
  match d with
  | [] => [(k, v)]
  | (k', v') :: d' =>
      if k' =? k then (k', v) :: d' else (k', v') :: dict_set d' k v
  end.

Definition dict_update (d other : dict) : dict :=
  fold_left (fun acc kv => dict_set acc (fst kv) (snd kv)) other d.

Definition pix_type_map : dict :=
  [ (0x2A, "RAW8"); (0x2B, "RAW10"); (0x2C, "RAW12");
    (0x18, "YUV420_8BIT"); (0x19, "YUV420_10BIT"); (0x1E, "YUV422_8BIT");
    (0x30, "JPEG") ].

Definition raw_bayer_order : dict :=
  [ (0x0, "BGGR"); (0x1, "GBRG"); (0x2, "GRBG"); (0x3, "RGGB");
    (0x4, "MONO") ].

Definition yuv_order : dict :=
  [ (0x0, "YUYV"); (0x1, "YVYU"); (0x2, "UYVY"); (0x3, "VYUY") ].

Definition control_id_map : dict :=
  [ (0x980902, "Saturation"); (0x98090c, "AWBMode"); (0x98090e, "RedGain");
    (0x98090f, "BlueGain"); (0x98091a, "ColorTemperature");
    (0x9a0901, "AEEnable"); (0x9a0919, "ExposureMetering");
    (0x980911, "Exposure"); (0x981901, "TriggerMode");
    (0x981906, "Framerate"); (0x9e0903, "AnalogueGain"); (0x9A090A, "Focus");
    (0x980900, "brightness"); (0x980901, "contrast");
    (0x98091B, "sharpness"); (0x980913, "gain") ].

Definition ID_map : dict :=
  dict_update
    [ (0x980914, "horizontal_flip"); (0x980915, "vertical_flip");
      (0x98190E, "strobe_width"); (0x98190F, "strobe_shift");
      (0x9e0901, "vertical_blanking"); (0x9e0902, "horizontal_blanking");
      (0x9f0902, "pixel_rate"); (0x98091C, "backlight_compensation") ]
    control_id_map.

(** [x in [a, b, c]] on integers. *)
Definition Zmem (x : Z) (l : list Z) : bool := existsb (Z.eqb x) l.

(* ================================================================= *)
(** ** Integer formatting of the f-strings

    [format_int conv width n] is Python's [format(n, "0<width><conv>")]:
    the sign first, then zeros up to the width, then the digits.  A width
    of 0 is the format without padding. *)

Definition dec_digits (n : N) : string :=
  DecimalString.NilZero.string_of_uint (N.to_uint n).

Definition hex_digits (n : N) : string :=
  HexadecimalString.NilZero.string_of_uint (N.to_hex_uint n).

Definition upper_ascii (c : ascii) : ascii :=
  let n := nat_of_ascii c in
  if andb (Nat.leb 97 n) (Nat.leb n 122) then ascii_of_nat (n - 32) else c.

Fixpoint upper (s : string) : string :=
  match s with
  | EmptyString => EmptyString
  | String c s' => String (upper_ascii c) (upper s')
  end.

Definition HEX_digits (n : N) : string := upper (hex_digits n).

Fixpoint zeros (n : nat) : string :=
  match n with
  | O => ""
  | S n' => String "0" (zeros n')
  end.

Definition format_int (conv : N -> string) (width : nat) (n : Z) : string :=
  let sign := if n <? 0 then "-" else "" in
  let body := conv (Z.abs_N n) in
  sign ++ zeros (width - String.length sign - String.length body) ++ body.

(** [{n}] and [{n:d}] *)
Definition fmt_d : Z -> string := format_int dec_digits 0.
(** [{n:02d}] *)
Definition fmt_02d : Z -> string := format_int dec_digits 2.
(** [{n:x}] *)
Definition fmt_x : Z -> string := format_int hex_digits 0.
(** [{n:02x}] *)
Definition fmt_02x : Z -> string := format_int hex_digits 2.
(** [{n:02X}], [{n:04X}], [{n:06X}] *)
Definition fmt_02X : Z -> string := format_int HEX_digits 2.
Definition fmt_04X : Z -> string := format_int HEX_digits 4.
Definition fmt_06X : Z -> string := format_int HEX_digits 6.

(* ================================================================= *)
(** ** ISP firmware version *)

Definition parse_isp_fw_version (isp_fw_version : Z) : string :=
  let isp_id := Z.shiftr (Z.land isp_fw_version 0xFFFF0000) 16 in
  let isp_id_high := Z.shiftr (Z.land isp_id 0xFF00) 8 in
  let isp_id_low := Z.land isp_id 0x00FF in
  let isp_fw_date := Z.land isp_fw_version 0xFFFF in
  let isp_fw_year := Z.shiftr isp_fw_date 9 in
  let isp_fw_month := Z.land (Z.shiftr isp_fw_date 5) 0x0F in
  let isp_fw_day := Z.land isp_fw_date 0x1F in
  "v" ++ fmt_x isp_id_high ++ "." ++ fmt_02x isp_id_low ++ " 20"
      ++ fmt_02d isp_fw_year ++ "/" ++ fmt_02d isp_fw_month ++ "/"
      ++ fmt_02d isp_fw_day.

(** The decoder as the specification words it: the bit fields of section
    4.5 and the year printed as the number [2000 + year]. *)
Module FirmwareVersionDecoder.

Definition id (v : Z) : Z := Z.land (Z.shiftr v 16) 0xFFFF.
Definition idHigh (v : Z) : Z := Z.land (Z.shiftr (id v) 8) 0xFF.
Definition idLow (v : Z) : Z := Z.land (id v) 0xFF.
Definition date (v : Z) : Z := Z.land v 0xFFFF.
Definition year (v : Z) : Z := Z.shiftr (date v) 9.
Definition month (v : Z) : Z := Z.land (Z.shiftr (date v) 5) 0xF.
Definition day (v : Z) : Z := Z.land (date v) 0x1F.

Definition text (v : Z) : string :=
  "v" ++ fmt_x (idHigh v) ++ "." ++ fmt_02x (idLow v) ++ " "
      ++ fmt_d (2000 + year v) ++ "/" ++ fmt_02d (month v) ++ "/"
      ++ fmt_02d (day v).

End FirmwareVersionDecoder.

(* ================================================================= *)
(** ** Transport, events and the probe monad

    [i2c_tools.I2CDevice] is imported by [arducli.py] and is not part of
    the sources: the transport is a parameter.  A device has a state; a
    read answers a value and the next state, a write answers the next
    state, and [None] stands for the exception a failing bus access
    raises.  The value of a read is any integer here; a theorem that
    needs the 32-bit word the register holds assumes it. *)

Record Transport : Type := {
  Dev : Type;
  read_16_32 : Dev -> Z -> Z -> option (Z * Dev);
  write_16_32 : Dev -> Z -> Z -> Z -> option Dev
}.

Inductive exn : Type :=
| TransportError
| RuntimeError (msg : string)
| ValueError
| SystemExit (code : Z).

(** What a run can end in: a value, a raised exception, or a loop that
    is still running when the fuel is spent. *)
Inductive outcome (A : Type) : Type :=
| Ok (a : A)
| Raise (e : exn)
| OutOfFuel.

Arguments Ok {A} a.
Arguments Raise {A} e.
Arguments OutOfFuel {A}.

(** The observable operations of a run, in program order. *)
Inductive event : Type :=
| EvWrite (reg val : Z)
| EvRead (reg val : Z)
| EvSleep
| EvPrint (text : string).

Inductive Level : Type := WARNING | ERROR | INFO.

Record resolution : Type := {
  index : Z;
  width : Z;
  height : Z;
  max_fps : option Z
}.

(** [{interval:.3f}] and [{fps:.3f}] go through floating point; the two
    renderings are parameters of the model.  They stand for what Python
    prints for a frame rate that converts to a float, as every value of a
    32-bit register does; [1.0 / fps] has no value at 0. *)
Record FloatFormat : Type := {
  fmt_interval_3f : Z -> string;   (* f"{1.0 / fps:.3f}" *)
  fmt_fps_3f : Z -> string         (* f"{fps:.3f}" *)
}.

Definition nl : string := String (ascii_of_nat 10) "".

Section Probe.

Variable T : Transport.
Variable F : FloatFormat.

Definition M (A : Type) : Type := Dev T -> outcome A * Dev T * list event.

Definition ret {A} (a : A) : M A := fun d => (Ok a, d, []).

Definition bind {A B} (m : M A) (k : A -> M B) : M B :=
  fun d =>
    match m d with
    | (Ok a, d1, t1) =>
        match k a d1 with
        | (o, d2, t2) => (o, d2, (t1 ++ t2)%list)
        end
    | (Raise e, d1, t1) => (Raise e, d1, t1)
    | (OutOfFuel, d1, t1) => (OutOfFuel, d1, t1)
    end.

Definition raise {A} (e : exn) : M A := fun d => (Raise e, d, []).

Definition out_of_fuel {A} : M A := fun d => (OutOfFuel, d, []).

Notation "x <- m ;; k" := (bind m (fun x => k))
  (at level 61, m at next level, right associativity).
Notation "m ;; k" := (bind m (fun _ => k))
  (at level 61, right associativity).

(** *** class PivarietyCamera *)

Definition i2c_address : Z := 0x0C.

Definition readReg (register : Z) : M Z :=
  fun d =>
    match read_16_32 T d i2c_address register with
    | Some (v, d') => (Ok v, d', [EvRead register v])
    | None => (Raise TransportError, d, [])
    end.

Definition writeReg (register value : Z) : M unit :=
  fun d =>
    match write_16_32 T d i2c_address register value with
    | Some d' => (Ok tt, d', [EvWrite register value])
    | None => (Raise TransportError, d, [])
    end.

Definition wait_for_free : M unit := fun d => (Ok tt, d, [EvSleep]).

Definition print (text : string) : M unit := fun d => (Ok tt, d, [EvPrint text]).

Definition log_line (text : string) (level : Level) : string :=
  let prefix :=
    match level with
    | INFO => "[INFO]"
    | WARNING => "[WARNING]"
    | ERROR => "[ERROR]"
    end in
  prefix ++ ": " ++ text.

Definition logging (text : string) (level : Level) : M unit :=
  print (log_line text level).

Fixpoint for_each {A} (l : list A) (body : A -> M unit) : M unit :=
  match l with
  | [] => ret tt
  | x :: l' => body x ;; for_each l' body
  end.

(** *** enum_resolutions

    Each [while True] is a recursion on [fuel], one unit per iteration;
    the inner loop gets the fuel of the outer one. *)

Fixpoint max_fps_loop (fuel : nat) (ctrl_index : Z) : M (option Z) :=
  match fuel with
  | O => out_of_fuel
  | S fuel' =>
      writeReg CTRL_INDEX_REG ctrl_index ;;
      ctrl_id <- readReg CTRL_ID_REG ;;
      if ctrl_id =? NO_DATA_AVAILABLE then ret None
      else if ctrl_id =? 0x981906 then
        max_fps <- readReg CTRL_MAX_REG ;;
        ret (Some max_fps)
      else max_fps_loop fuel' (ctrl_index + 1)
  end.

Fixpoint enum_resolutions_loop (fuel : nat) (index : Z)
    (resolutions : list resolution) : M (list resolution) :=
  match fuel with
  | O => out_of_fuel
  | S fuel' =>
      writeReg RESOLUTION_INDEX_REG index ;;
      val <- readReg RESOLUTION_INDEX_REG ;;
      if val =? NO_DATA_AVAILABLE then ret resolutions
      else
        width <- readReg FORMAT_WIDTH_REG ;;
        height <- readReg FORMAT_HEIGHT_REG ;;
        writeReg CTRL_INDEX_REG 0 ;;
        max_fps <- max_fps_loop fuel 0 ;;
        enum_resolutions_loop fuel' (index + 1)
          (resolutions ++
             [ {| index := index; width := width; height := height;
                  max_fps := max_fps |} ])%list
  end.

Definition enum_resolutions (fuel : nat) : M (list resolution) :=
  enum_resolutions_loop fuel 0 [].

(** *** list_formats *)

(** The FOURCC if-chain of [list_formats]. *)
Definition list_formats_fourcc (pix_type pix_order : Z) : string :=
  if Zmem pix_type [0x18; 0x19; 0x1E] then dict_get yuv_order pix_order "YUYV"
  else if Zmem pix_type [0x2A; 0x2B; 0x2C] then
    dict_get raw_bayer_order pix_order "RGGB"
  else if pix_type =? 0x30 then "MJPG"
  else "UNKN".

Definition format_line (idx : Z) (fourcc pix_name : string) : string :=
  "        [" ++ fmt_d idx ++ "]: '" ++ fourcc ++ "' (" ++ pix_name ++ ")".

Definition size_line (width height : Z) : string :=
  "                Size: Discrete " ++ fmt_d width ++ "x" ++ fmt_d height.

Definition interval_line (fps : Z) : string :=
  "                        Interval: Discrete " ++ fmt_interval_3f F fps
    ++ "s (" ++ fmt_fps_3f F fps ++ " fps)".

(** Truth value of [fps], an integer or [None]. *)
Definition truthy (fps : option Z) : bool :=
  match fps with
  | Some v => negb (v =? 0)
  | None => false
  end.

Definition list_formats_row (extended : bool) (fourcc pix_name : string)
    (res : resolution) : M unit :=
  let idx := index res in
  let width := width res in
  let height := height res in
  let fps := max_fps res in
  print (format_line idx fourcc pix_name) ;;
  if extended then
    print (size_line width height) ;;
    if truthy fps then
      match fps with
      | Some v => print (interval_line v)
      | None => ret tt
      end
    else ret tt
  else ret tt.

Definition list_formats (fuel : nat) (extended : bool) : M unit :=
  writeReg PIXFORMAT_INDEX_REG 0 ;;
  pix_type <- readReg PIXFORMAT_TYPE_REG ;;
  pix_order <- readReg PIXFORMAT_ORDER_REG ;;
  let pix_name := dict_get pix_type_map pix_type "Unknown" in
  let fourcc := list_formats_fourcc pix_type pix_order in
  resolutions <- enum_resolutions fuel ;;
  print "ioctl: VIDIOC_ENUM_FMT" ;;
  print ("        Type: Video Capture" ++ nl) ;;
  for_each resolutions (list_formats_row extended fourcc pix_name).

(** *** get_software_fw_version *)

(** [range(n)] *)
Definition range (n : Z) : list Z := map Z.of_nat (seq 0 (Z.to_nat n)).

(** [chr(ch)] for a code at most 255; a negative code raises. *)
Definition chr (ch : Z) : M string :=
  if ch <? 0 then raise ValueError
  else ret (String (ascii_of_N (Z.to_N ch)) "").

Fixpoint soft_version_loop (indices : list Z) (version : string) : M string :=
  match indices with
  | [] => ret version
  | i :: rest =>
      writeReg SOFT_VERSION_INDEX_REG i ;;
      ch <- readReg SOFT_VERSION_REG ;;
      if ch >? 255 then soft_version_loop rest version
      else
        c <- chr ch ;;
        soft_version_loop rest (version ++ c)
  end.

Definition get_software_fw_version : M string :=
  version_length <- readReg SOFT_VERSION_LEN_REG ;;
  if (version_length =? NO_DATA_AVAILABLE) || (version_length >? 255)
  then ret "None"
  else soft_version_loop (range version_length) "".

(** *** main: the full probe of one camera *)

Definition control_line (ctrl_id max_val min_val def_val : Z) : string :=
  "ID: 0x" ++ fmt_06X ctrl_id ++ ", control_name: "
    ++ dict_get ID_map ctrl_id "Unknown" ++ " MAX: " ++ fmt_d max_val
    ++ ", MIN: " ++ fmt_d min_val ++ ", DEF: " ++ fmt_d def_val.

Fixpoint main_ctrl_loop (fuel : nat) (ctrl_index : Z) : M unit :=
  match fuel with
  | O => out_of_fuel
  | S fuel' =>
      writeReg CTRL_INDEX_REG ctrl_index ;;
      ctrl_id <- readReg CTRL_ID_REG ;;
      if ctrl_id =? NO_DATA_AVAILABLE then ret tt
      else
        writeReg CTRL_VALUE_REG 0 ;;
        wait_for_free ;;
        max_val <- readReg CTRL_MAX_REG ;;
        min_val <- readReg CTRL_MIN_REG ;;
        def_val <- readReg CTRL_DEF_REG ;;
        logging (control_line ctrl_id max_val min_val def_val) INFO ;;
        main_ctrl_loop fuel' (ctrl_index + 1)
  end.

Definition main_resolution (fuel : nat) (res : resolution) : M unit :=
  let idx := index res in
  let width := width res in
  let height := height res in
  logging ("index: " ++ fmt_d idx ++ ", " ++ fmt_d width ++ "x"
             ++ fmt_d height) INFO ;;
  main_ctrl_loop fuel 0.

(** [order] of the pixel-format loop: [None] unless the type is RAW or
    YUV class. *)
Definition main_order (pix_type bayer_order : Z) : option string :=
  if Zmem pix_type [0x2A; 0x2B; 0x2C] then
    Some (dict_get raw_bayer_order bayer_order "Unknown")
  else if Zmem pix_type [0x18; 0x19; 0x1E] then
    Some (dict_get yuv_order bayer_order "Unknown")
  else None.

Definition pixelformat_line (dtype : string) (order : option string)
    (lanes : Z) : string :=
  match order with
  | Some (String c o) =>
      "PixelFormat Type: " ++ dtype ++ ", Order: " ++ String c o
        ++ ", Lanes: " ++ fmt_d lanes
  | _ => "PixelFormat Type: " ++ dtype ++ ", Lanes: " ++ fmt_d lanes
  end.

Fixpoint main_pix_loop (fuel : nat) (pix_index : Z) : M unit :=
  match fuel with
  | O => out_of_fuel
  | S fuel' =>
      writeReg PIXFORMAT_INDEX_REG pix_index ;;
      val <- readReg PIXFORMAT_INDEX_REG ;;
      if val =? NO_DATA_AVAILABLE then ret tt
      else
        pix_type <- readReg PIXFORMAT_TYPE_REG ;;
        bayer_order <- readReg PIXFORMAT_ORDER_REG ;;
        lanes <- readReg MIPI_LANES_REG ;;
        let dtype := dict_get pix_type_map pix_type "Unknown" in
        let order := main_order pix_type bayer_order in
        logging (pixelformat_line dtype order lanes) INFO ;;
        resolutions <- enum_resolutions fuel ;;
        for_each resolutions (main_resolution fuel) ;;
        main_pix_loop fuel' (pix_index + 1)
  end.

Definition full_info_probe (fuel : nat) : M unit :=
  device_id <- readReg DEVICE_ID_REG ;;
  device_version <- readReg DEVICE_VERSION_REG ;;
  sensor_id <- readReg FIRMWARE_SENSOR_ID_REG ;;
  isp_fw_version <- readReg UNIQUE_ID_REG ;;
  logging ("Device ID: 0x" ++ fmt_02X device_id) INFO ;;
  logging ("Device Version: 0x" ++ fmt_02X device_version) INFO ;;
  logging ("Sensor ID: 0x" ++ fmt_04X sensor_id) INFO ;;
  logging ("ISP FW Version: " ++ parse_isp_fw_version isp_fw_version) INFO ;;
  soft <- get_software_fw_version ;;
  logging ("Software FW Version: " ++ soft) INFO ;;
  main_pix_loop fuel 0 ;;
  writeReg PIXFORMAT_INDEX_REG 0.

(** *** main: arguments, mapping table and the device loop *)

Record Args : Type := {
  arg_bus : option Z;
  arg_device : option string;
  arg_list_formats : bool;
  arg_list_formats_ext : bool;
  arg_verbose : bool
}.

(** What [parser.parse_args()] makes of the command line.  [argparse] is
    not part of the sources: it returns the namespace of the five options,
    or it leaves the program itself through [sys.exit], with status 0
    after [--help] and 2 on a command line it refuses.  What it writes on
    its own is not part of the trace. *)
Inductive parse_result : Type :=
| Namespace (args : Args)
| ParserExit (code : Z).

(** An entry of the mapping table, [null] or an object with a bus. *)
Record MappingEntry : Type := {
  info_bus : Z;
  info_addr : string;
  info_sensor : string
}.

Definition Mapping : Type := list (string * option MappingEntry).

Record Device : Type := { dev_bus : Z; dev_name : string }.

(** The buses of the machine: a device behind each bus that opens, the
    text of the error for each one that does not. *)
Definition Buses : Type := Z -> Dev T + string.

Definition set_bus (buses : Buses) (bus : Z) (d : Dev T) : Buses :=
  fun b => if b =? bus then inl d else buses b.

Definition probe_camera (fuel : nat) (args : Args) : M unit :=
  if arg_list_formats args || arg_list_formats_ext args then
    list_formats fuel (arg_list_formats_ext args)
  else full_info_probe fuel.

Fixpoint probe_devices (fuel : nat) (args : Args) (devices : list Device)
    (buses : Buses) : outcome unit * Buses * list event :=
  match devices with
  | [] => (Ok tt, buses, [])
  | dev :: rest =>
      match buses (dev_bus dev) with
      | inr e =>
          (* PivarietyCamera raised RuntimeError: logged, next device *)
          let msg := "Failed to open I2C bus " ++ fmt_d (dev_bus dev) ++ ": " ++ e in
          match probe_devices fuel args rest buses with
          | (o, buses', evs) => (o, buses', EvPrint (log_line msg ERROR) :: evs)
          end
      | inl camera =>
          match probe_camera fuel args camera with
          | (Ok _, camera', evs) =>
              match probe_devices fuel args rest
                      (set_bus buses (dev_bus dev) camera') with
              | (o, buses', evs') => (o, buses', (evs ++ evs')%list)
              end
          | (Raise e, camera', evs) =>
              (Raise e, set_bus buses (dev_bus dev) camera', evs)
          | (OutOfFuel, camera', evs) =>
              (OutOfFuel, set_bus buses (dev_bus dev) camera', evs)
          end
      end
  end.

Definition VERSION_MJR : Z := 1.
Definition VERSION_MIN : Z := 5.
Definition DEFAULT_MAPPING_PATH : string := "/opt/arducam/arducam_i2c_map.json".

(** [os.path.basename] *)
Fixpoint basename_from (p acc : string) : string :=
  match p with
  | EmptyString => acc
  | String c p' =>
      if Ascii.eqb c "/" then basename_from p' ""
      else basename_from p' (acc ++ String c "")
  end.

Definition basename (p : string) : string := basename_from p "".

Fixpoint mapping_find (mapping : Mapping) (name : string) : option (option MappingEntry) :=
  match mapping with
  | [] => None
  | (k, v) :: rest => if String.eqb k name then Some v else mapping_find rest name
  end.

Fixpoint mapped_devices (mapping : Mapping) : list Device :=
  match mapping with
  | [] => []
  | (name, Some info) :: rest =>
      {| dev_bus := info_bus info; dev_name := name |} :: mapped_devices rest
  | (_, None) :: rest => mapped_devices rest
  end.

(** The devices to probe, or the text of the error that ends the run. *)
Definition devices_to_probe (args : Args) (mapping : Mapping)
  : list Device + string :=
  match arg_bus args, arg_device args with
  | Some bus, _ => inl [ {| dev_bus := bus; dev_name := "manual" |} ]
  | None, Some device =>
      let name := basename device in
      match mapping_find mapping name with
      | Some (Some info) => inl [ {| dev_bus := info_bus info; dev_name := name |} ]
      | _ => inr ("No mapping found for device " ++ device)
      end
  | None, None => inl (mapped_devices mapping)
  end.

Definition banner : list event :=
  [ EvPrint "=================================";
    EvPrint "             arducli.py        ";
    EvPrint " arducam command line interface";
    EvPrint ("            v." ++ fmt_d VERSION_MJR ++ "." ++ fmt_d VERSION_MIN
               ++ " / 2025");
    EvPrint "=================================" ].

(** [parsed] is what [parser.parse_args()] did; [mapping_file] is the
    parsed mapping table, [None] when the file does not exist. *)
Definition main (fuel : nat) (parsed : parse_result)
    (mapping_file : option Mapping) (buses : Buses)
  : outcome unit * Buses * list event :=
  match parsed with
  | ParserExit code => (Raise (SystemExit code), buses, [])
  | Namespace args =>
  match arg_bus args, arg_device args with
  | Some _, Some _ =>
      (Raise (SystemExit 1), buses,
       [EvPrint (log_line "Options -b and -d are mutually exclusive" ERROR)])
  | _, _ =>
      let ev0 := if arg_verbose args then banner else [] in
      match mapping_file with
      | None =>
          (Raise (SystemExit 1), buses,
           (ev0 ++ [EvPrint (log_line
              "Mapping table not found, please run ardu_i2c_detect.py first."
              ERROR)])%list)
      | Some mapping =>
          let ev1 := (ev0 ++ [EvPrint (log_line
                        ("Loading mapping table from " ++ DEFAULT_MAPPING_PATH)
                        INFO)])%list in
          match devices_to_probe args mapping with
          | inr msg =>
              (Raise (SystemExit 1), buses,
               (ev1 ++ [EvPrint (log_line msg ERROR)])%list)
          | inl devices =>
              match probe_devices fuel args devices buses with
              | (o, buses', evs) => (o, buses', (ev1 ++ evs)%list)
              end
          end
      end
  end
  end.

End Probe.

Arguments ret {T A} a.
Arguments bind {T A B} m k.
Arguments raise {T A} e.
Arguments out_of_fuel {T A}.
Arguments for_each {T A} l body.

(* ================================================================= *)
(** ** Observations on a run *)

(** The values read from register [reg], in order. *)
Fixpoint reads_of (reg : Z) (tr : list event) : list Z :=
  match tr with
  | [] => []
  | EvRead r v :: tr' =>
      if r =? reg then v :: reads_of reg tr' else reads_of reg tr'
  | _ :: tr' => reads_of reg tr'
  end.

(** The values written to register [reg], in order. *)
Fixpoint writes_of (reg : Z) (tr : list event) : list Z :=
  match tr with
  | [] => []
  | EvWrite r v :: tr' =>
      if r =? reg then v :: writes_of reg tr' else writes_of reg tr'
  | _ :: tr' => writes_of reg tr'
  end.

(** The lines printed, in order. *)
Fixpoint prints_of (tr : list event) : list string :=
  match tr with
  | [] => []
  | EvPrint s :: tr' => s :: prints_of tr'
  | _ :: tr' => prints_of tr'
  end.

(** The number of settle delays taken. *)
Fixpoint sleeps_of (tr : list event) : nat :=
  match tr with
  | [] => O
  | EvSleep :: tr' => S (sleeps_of tr')
  | _ :: tr' => sleeps_of tr'
  end.

(** Where a control stands with respect to the timing contract: selected
    only, value register set to 0, or set to 0 and settled. *)
Inductive settle : Type := Selected | Zeroed | Settled.

Definition is_bound_reg (r : Z) : bool :=
  Zmem r [CTRL_MIN_REG; CTRL_MAX_REG; CTRL_DEF_REG].

(** [bounds_settled st tr]: every read of a bound register in [tr] comes
    after a write of 0 to the value register followed by a settle delay,
    both after the last write of the control index. *)
Fixpoint bounds_settled (st : settle) (tr : list event) : bool :=
  match tr with
  | [] => true
  | EvWrite r v :: tr' =>
      if r =? CTRL_INDEX_REG then bounds_settled Selected tr'
      else if r =? CTRL_VALUE_REG then
        bounds_settled (if v =? 0 then Zeroed else Selected) tr'
      else bounds_settled st tr'
  | EvSleep :: tr' =>
      bounds_settled (match st with Selected => Selected | _ => Settled end) tr'
  | EvRead r _ :: tr' =>
      if is_bound_reg r then
        match st with
        | Settled => bounds_settled st tr'
        | _ => false
        end
      else bounds_settled st tr'
  | EvPrint _ :: tr' => bounds_settled st tr'
  end.

(** How the two renderings of the year compare, on the whole range of
    the 7-bit field. *)
Definition year_check (y : Z) : bool :=
  if y <? 100 then String.eqb ("20" ++ fmt_02d y) (fmt_d (2000 + y))
  else Nat.eqb (String.length (fmt_02d y)) 3
       && Nat.eqb (String.length (fmt_d (2000 + y))) 4.

(** [start, start + 1, ..., start + n - 1] *)
Definition zrange (start : Z) (n : nat) : list Z :=
  map (fun i => start + Z.of_nat i) (seq 0 n).

(** The maxima a list of descriptors holds, in order. *)
Definition fps_values (rs : list resolution) : list Z :=
  flat_map (fun r => match max_fps r with Some m => [m] | None => [] end) rs.

(** [only_regs regs tr]: every register access of [tr] is to a register
    of [regs]. *)
Definition ev_on (regs : list Z) (e : event) : bool :=
  match e with
  | EvRead r _ | EvWrite r _ => Zmem r regs
  | _ => true
  end.

Definition only_regs (regs : list Z) (tr : list event) : bool :=
  forallb (ev_on regs) tr.

(** The registers the max-fps scan and the control loop work on. *)
Definition scan_regs : list Z := [CTRL_INDEX_REG; CTRL_ID_REG; CTRL_MAX_REG].

Definition ctrl_regs : list Z :=
  [CTRL_INDEX_REG; CTRL_ID_REG; CTRL_MIN_REG; CTRL_MAX_REG; CTRL_DEF_REG;
   CTRL_VALUE_REG].

(** The registers [enum_resolutions] works on. *)
Definition resolution_regs : list Z :=
  [RESOLUTION_INDEX_REG; FORMAT_WIDTH_REG; FORMAT_HEIGHT_REG;
   CTRL_INDEX_REG; CTRL_ID_REG; CTRL_MAX_REG].

(** The lines the control loop prints for the values it read: one line
    for each control, from its id, maximum, minimum and default. *)
Fixpoint control_lines (ids maxs mins defs : list Z) : list string :=
  match ids, maxs, mins, defs with
  | i :: ids', x :: maxs', n :: mins', f :: defs' =>
      log_line (control_line i x n f) INFO :: control_lines ids' maxs' mins' defs'
  | _, _, _, _ => []
  end.

(** The number of printed lines that begin with [p]. *)
Definition count_lines (p : string) (tr : list event) : nat :=
  List.length (filter (String.prefix p) (prints_of tr)).

Definition pixelformat_prefix : string := "[INFO]: PixelFormat Type:".

(** The ids at which the max-fps scan stops. *)
Definition scan_stop (x : Z) : Prop := x = NO_DATA_AVAILABLE \/ x = FRAMERATE_ID.


(** A transport on which the control id never reads as the sentinel or
    as Framerate. *)
Definition never_stops_scan (T : Transport) : Prop :=
  forall d v d',
    read_16_32 T d i2c_address CTRL_ID_REG = Some (v, d') -> ~ scan_stop v.


(** Whether a string holds the character [c]. *)
Fixpoint has_char (c : ascii) (s : string) : bool :=
  match s with
  | EmptyString => false
  | String x s' => Ascii.eqb x c || has_char c s'
  end.

(** The first number below [bound] that [f] renders as [s]. *)
Definition decode_by (f : Z -> string) (bound : nat) (s : string) : option Z :=
  find (fun n => String.eqb (f n) s) (map Z.of_nat (seq 0 bound)).

(** [f] renders the numbers below [bound] apart, and without the
    character [c]. *)
Definition renders_apart (f : Z -> string) (bound : nat) (c : ascii) : bool :=
  forallb (fun n => match decode_by f bound (f n) with
                    | Some m => (m =? n) && negb (has_char c (f n))
                    | None => false
                    end)
          (map Z.of_nat (seq 0 bound)).

(** The configurations [main] refuses: both -b and -d, no mapping table,
    or a -d whose name the table does not map to an entry. *)
Definition config_error (args : Args) (mapping_file : option Mapping) : Prop :=
  (arg_bus args <> None /\ arg_device args <> None)
  \/ mapping_file = None
  \/ (arg_bus args = None
      /\ exists device mapping,
           arg_device args = Some device /\ mapping_file = Some mapping
           /\ forall info,
                mapping_find mapping (basename device) <> Some (Some info)).

Definition error_prefix : string := "[ERROR]:".

Definition open_failure_prefix : string := "[ERROR]: Failed to open I2C bus".

(** What [main] prints before it turns to the devices. *)
Definition preamble (args : Args) : list event :=
  ((if arg_verbose args then banner else []) ++
   [EvPrint (log_line ("Loading mapping table from " ++ DEFAULT_MAPPING_PATH)
               INFO)])%list.

(** Whether an entry of the mapping table maps its device. *)
Definition is_mapped (entry : string * option MappingEntry) : bool :=
  match snd entry with
  | Some _ => true
  | None => false
  end.

(** The registers a probe reads and the registers it writes. *)
Definition probe_read_regs : list Z :=
  [ DEVICE_VERSION_REG; DEVICE_ID_REG; FIRMWARE_SENSOR_ID_REG; UNIQUE_ID_REG;
    SOFT_VERSION_LEN_REG; SOFT_VERSION_REG;
    PIXFORMAT_INDEX_REG; PIXFORMAT_TYPE_REG; PIXFORMAT_ORDER_REG;
    MIPI_LANES_REG;
    RESOLUTION_INDEX_REG; FORMAT_WIDTH_REG; FORMAT_HEIGHT_REG;
    CTRL_ID_REG; CTRL_MIN_REG; CTRL_MAX_REG; CTRL_DEF_REG ].

Definition cursor_regs : list Z :=
  [ SOFT_VERSION_INDEX_REG; PIXFORMAT_INDEX_REG; RESOLUTION_INDEX_REG;
    CTRL_INDEX_REG ].

(** An event a full probe may show: a read of one of its registers, a
    write to a cursor, a write of 0 to the control value, a delay or a
    print. *)
Definition probe_event (e : event) : bool :=
  match e with
  | EvRead r _ => Zmem r probe_read_regs
  | EvWrite r v => Zmem r cursor_regs || ((r =? CTRL_VALUE_REG) && (v =? 0))
  | _ => true
  end.

(** An event the listing may show: no identity or version read, no write
    but to the three cursors it pages with, no delay. *)
Definition listing_event (e : event) : bool :=
  match e with
  | EvRead r _ =>
      Zmem r [ PIXFORMAT_TYPE_REG; PIXFORMAT_ORDER_REG; RESOLUTION_INDEX_REG;
               FORMAT_WIDTH_REG; FORMAT_HEIGHT_REG; CTRL_ID_REG; CTRL_MAX_REG ]
  | EvWrite r _ =>
      Zmem r [ PIXFORMAT_INDEX_REG; RESOLUTION_INDEX_REG; CTRL_INDEX_REG ]
  | EvSleep => false
  | EvPrint _ => true
  end.

(** The operations of a max-fps scan that starts at control [c], passes
    the controls [ids] and stops: on Framerate, whose maximum [m] it
    reads, when [fps] is [Some m]; on the sentinel when [fps] is [None]. *)
Fixpoint scan_ops (c : Z) (ids : list Z) (fps : option Z) : list event :=
  match ids with
  | [] =>
      EvWrite CTRL_INDEX_REG c ::
        match fps with
        | Some m => [EvRead CTRL_ID_REG FRAMERATE_ID; EvRead CTRL_MAX_REG m]
        | None => [EvRead CTRL_ID_REG NO_DATA_AVAILABLE]
        end
  | id :: ids' =>
      EvWrite CTRL_INDEX_REG c :: EvRead CTRL_ID_REG id
        :: scan_ops (c + 1) ids' fps
  end.

(** A control id that a scan passes. *)
Definition passed (id : Z) : Prop :=
  id <> NO_DATA_AVAILABLE /\ id <> FRAMERATE_ID.

(** What [enum_resolutions] read for one entry besides the descriptor:
    the value the resolution index read back and the controls its scan
    passed. *)
Definition entry : Type := resolution * (Z * list Z).

(** The operations of [enum_resolutions] for one entry. *)
Definition entry_ops (e : entry) : list event :=
  let r := fst e in
  [ EvWrite RESOLUTION_INDEX_REG (index r);
    EvRead RESOLUTION_INDEX_REG (fst (snd e));
    EvRead FORMAT_WIDTH_REG (width r);
    EvRead FORMAT_HEIGHT_REG (height r);
    EvWrite CTRL_INDEX_REG 0 ]
    ++ scan_ops 0 (snd (snd e)) (max_fps r).

Definition entry_found (e : entry) : Prop :=
  fst (snd e) <> NO_DATA_AVAILABLE /\ Forall passed (snd (snd e)).

(** A transport on which no bus access fails. *)
Definition reliable (T : Transport) : Prop :=
  (forall d a r, read_16_32 T d a r <> None) /\
  (forall d a r v, write_16_32 T d a r v <> None).

(** A transport on which register [reg] never reads as the sentinel. *)
Definition never_sentinel (T : Transport) (reg : Z) : Prop :=
  forall d v d',
    read_16_32 T d i2c_address reg = Some (v, d') -> v <> NO_DATA_AVAILABLE.

(** A transport whose reads are unsigned. *)
Definition unsigned (T : Transport) : Prop :=
  forall d a r v d', read_16_32 T d a r = Some (v, d') -> 0 <= v.

(** A transport whose reads are 32-bit words, as [read_16_32] is named
    for; and one whose reads fit 32 bits, signed or unsigned. *)
Definition word32 (T : Transport) : Prop :=
  forall d a r v d', read_16_32 T d a r = Some (v, d') -> 0 <= v < 2 ^ 32.

Definition fits32 (T : Transport) : Prop :=
  forall d a r v d',
    read_16_32 T d a r = Some (v, d') -> - 2 ^ 31 <= v < 2 ^ 32.

(** The characters of a list of codes, as [chr] gives them. *)
Fixpoint string_of_codes (codes : list Z) : string :=
  match codes with
  | [] => ""
  | c :: rest => String (ascii_of_N (Z.to_N c)) (string_of_codes rest)
  end.

(** The trace of the character loop: the index written, then the code
    read, for each index in turn. *)
Fixpoint soft_version_trace (indices codes : list Z) : list event :=
  match indices, codes with
  | i :: indices', c :: codes' =>
      EvWrite SOFT_VERSION_INDEX_REG i :: EvRead SOFT_VERSION_REG c
        :: soft_version_trace indices' codes'
  | _, _ => []
  end.

(** The lines [list_formats] prints for one resolution. *)
Definition row_lines (F : FloatFormat) (extended : bool)
    (fourcc pix_name : string) (res : resolution) : list string :=
  format_line (index res) fourcc pix_name ::
    (if extended then
       size_line (width res) (height res) ::
         match max_fps res with
         | Some v => if v =? 0 then [] else [interval_line F v]
         | None => []
         end
     else []).

(** The FOURCC derivation as the specification words it: the class of a
    type is read off its name in the type table. *)
Module CapabilityDecoder.

Inductive pix_class : Type := RAW | YUV | JPEG | OTHER.

Definition class_of_name (name : string) : pix_class :=
  if String.prefix "RAW" name then RAW
  else if String.prefix "YUV" name then YUV
  else if String.eqb name "JPEG" then JPEG
  else OTHER.

Definition class_of (pix_type : Z) : pix_class :=
  match dict_find pix_type_map pix_type with
  | Some name => class_of_name name
  | None => OTHER
  end.

Definition fourcc (pix_type pix_order : Z) : string :=
  match class_of pix_type with
  | RAW =>
      match dict_find raw_bayer_order pix_order with
      | Some s => s
      | None => "RGGB"
      end
  | YUV =>
      match dict_find yuv_order pix_order with
      | Some s => s
      | None => "YUYV"
      end
  | JPEG => "MJPG"
  | OTHER => "UNKN"
  end.

End CapabilityDecoder.

(* ================================================================= *)
(** ** A register-file device

    A concrete transport for running the probe: the device keeps the
    registers written to it, and a read is answered from a camera
    description and the cursors last written. *)

Module Mock.

Definition regfile : Type := list (Z * Z).

Fixpoint rf_get (rf : regfile) (r : Z) : Z :=
  match rf with
  | [] => 0
  | (r', v) :: rf' => if r' =? r then v else rf_get rf' r
  end.

Definition device (respond : regfile -> Z -> option Z) : Transport :=
  {| Dev := regfile;
     read_16_32 := fun rf a r =>
       match respond rf r with
       | Some v => Some (v, rf)
       | None => None
       end;
     write_16_32 := fun rf a r v => Some ((r, v) :: rf) |}.

Record camera : Type := {
  device_id : Z;
  device_version : Z;
  sensor_id : Z;
  isp_fw_version : Z;
  soft_version : list Z;
  formats : list (Z * Z * Z);        (* type, order, lanes *)
  resolutions : list (Z * Z);        (* width, height *)
  controls : list (Z * (Z * Z * Z)); (* id, (min, max, default) *)
  broken : list Z                    (* registers whose read fails *)
}.

Definition nthZ {A} (l : list A) (i : Z) (default : A) : A :=
  if i <? 0 then default else nth (Z.to_nat i) l default.

Definition presence {A} (l : list A) (i : Z) : Z :=
  if (0 <=? i) && (i <? Z.of_nat (List.length l)) then i else NO_DATA_AVAILABLE.

Definition value (c : camera) (rf : regfile) (r : Z) : Z :=
  let pix := rf_get rf PIXFORMAT_INDEX_REG in
  let res := rf_get rf RESOLUTION_INDEX_REG in
  let ctl := rf_get rf CTRL_INDEX_REG in
  if r =? DEVICE_ID_REG then device_id c
  else if r =? DEVICE_VERSION_REG then device_version c
  else if r =? FIRMWARE_SENSOR_ID_REG then sensor_id c
  else if r =? UNIQUE_ID_REG then isp_fw_version c
  else if r =? SOFT_VERSION_LEN_REG then Z.of_nat (List.length (soft_version c))
  else if r =? SOFT_VERSION_REG then
    nthZ (soft_version c) (rf_get rf SOFT_VERSION_INDEX_REG) 0
  else if r =? PIXFORMAT_INDEX_REG then presence (formats c) pix
  else if r =? PIXFORMAT_TYPE_REG then fst (fst (nthZ (formats c) pix (0, 0, 0)))
  else if r =? PIXFORMAT_ORDER_REG then snd (fst (nthZ (formats c) pix (0, 0, 0)))
  else if r =? MIPI_LANES_REG then snd (nthZ (formats c) pix (0, 0, 0))
  else if r =? RESOLUTION_INDEX_REG then presence (resolutions c) res
  else if r =? FORMAT_WIDTH_REG then fst (nthZ (resolutions c) res (0, 0))
  else if r =? FORMAT_HEIGHT_REG then snd (nthZ (resolutions c) res (0, 0))
  else if r =? CTRL_ID_REG then
    (if (0 <=? ctl) && (ctl <? Z.of_nat (List.length (controls c)))
     then fst (nthZ (controls c) ctl (0, (0, 0, 0)))
     else NO_DATA_AVAILABLE)
  else if r =? CTRL_MIN_REG then fst (fst (snd (nthZ (controls c) ctl (0, (0, 0, 0)))))
  else if r =? CTRL_MAX_REG then snd (fst (snd (nthZ (controls c) ctl (0, (0, 0, 0)))))
  else if r =? CTRL_DEF_REG then snd (snd (nthZ (controls c) ctl (0, (0, 0, 0))))
  else 0.

Definition respond (c : camera) (rf : regfile) (r : Z) : option Z :=
  if Zmem r (broken c) then None else Some (value c rf r).

(** One camera as a transport of its own. *)
Definition camera_device (c : camera) : Transport := device (respond c).

(** The cameras of a machine: the state of a device is the camera it is
    and its register file. *)
Definition cameras : Transport :=
  {| Dev := camera * regfile;
     read_16_32 := fun d a r =>
       match respond (fst d) (snd d) r with
       | Some v => Some (v, d)
       | None => None
       end;
     write_16_32 := fun d a r v => Some (fst d, (r, v) :: snd d) |}.

(** A camera as first opened. *)
Definition fresh (c : camera) : Dev cameras := (c, []).

(** A device that never ends its resolution list: the resolution index
    reads back as written, and every resolution has no control. *)
Definition endless_respond (rf : regfile) (r : Z) : option Z :=
  if r =? CTRL_ID_REG then Some NO_DATA_AVAILABLE
  else Some (Z.land (rf_get rf r) 0xFF).

Definition endless : Transport := device endless_respond.

(** A camera with one RAW10 format, two resolutions and three controls,
    the second of which is Framerate. *)
Definition cam1 : camera :=
  {| device_id := 0x30; device_version := 0x11; sensor_id := 0x0219;
     isp_fw_version := 0x01020A43;
     soft_version := [118; 49; 46; 300; 50];
     formats := [(0x2B, 0x3, 2)];
     resolutions := [(1920, 1080); (1280, 720)];
     controls := [ (0x980911, (1, 65535, 100)); (0x981906, (1, 60, 30));
                   (0x9e0903, (0, 255, 16)) ];
     broken := [] |}.


(** A camera whose width register cannot be read. *)
Definition cam_broken : camera :=
  {| device_id := 0x31; device_version := 0x11; sensor_id := 0x0219;
     isp_fw_version := 0x01020A43;
     soft_version := [118; 50];
     formats := [(0x2B, 0x3, 2)];
     resolutions := [(1920, 1080)];
     controls := [ (0x981906, (1, 60, 30)) ];
     broken := [FORMAT_WIDTH_REG] |}.

(** A camera with two pixel formats, RAW10 in RGGB order and YUV422 in
    UYVY order. *)
Definition cam_two_formats : camera :=
  {| device_id := 0x30; device_version := 0x11; sensor_id := 0x0219;
     isp_fw_version := 0x01020A43;
     soft_version := [118; 49];
     formats := [(0x2B, 0x3, 2); (0x1E, 0x2, 4)];
     resolutions := [(1920, 1080); (1280, 720)];
     controls := [ (0x980911, (1, 65535, 100)); (0x981906, (1, 60, 30)) ];
     broken := [] |}.

(** That camera as a run before left it, the format cursor on the second
    format. *)
Definition on_second_format : Dev cameras :=
  (cam_two_formats, [(PIXFORMAT_INDEX_REG, 1)]).

(** A camera whose Framerate control has the maximum 0. *)
Definition cam_zero_fps : camera :=
  {| device_id := 0x33; device_version := 0x12; sensor_id := 0x0477;
     isp_fw_version := 0x02000C21;
     soft_version := [];
     formats := [(0x1E, 0x2, 4)];
     resolutions := [(640, 480)];
     controls := [ (0x981906, (0, 0, 0)) ];
     broken := [] |}.

(** A small camera: one YUV format, one resolution, one control. *)
Definition cam3 : camera :=
  {| device_id := 0x33; device_version := 0x12; sensor_id := 0x0477;
     isp_fw_version := 0x02000C21;
     soft_version := [];
     formats := [(0x1E, 0x2, 4)];
     resolutions := [(640, 480)];
     controls := [ (0x980900, (0, 100, 50)) ];
     broken := [] |}.

(** A machine with three mapped video devices on buses 1, 2 and 3; no
    other bus opens. *)
Definition machine (c1 c2 c3 : option camera) : Buses cameras :=
  fun b =>
    let slot := if b =? 1 then c1 else if b =? 2 then c2
                else if b =? 3 then c3 else None in
    match slot with
    | Some c => inl (fresh c)
    | None => inr "[Errno 2] No such file or directory"
    end.

Definition mapping3 : Mapping :=
  [ ("video0", Some {| info_bus := 1; info_addr := "0x0c";
                       info_sensor := "arducam-pivariety" |});
    ("video1", Some {| info_bus := 2; info_addr := "0x0c";
                       info_sensor := "arducam-pivariety" |});
    ("video2", Some {| info_bus := 3; info_addr := "0x0c";
                       info_sensor := "arducam-pivariety" |}) ].

Definition no_args : Args :=
  {| arg_bus := None; arg_device := None; arg_list_formats := false;
     arg_list_formats_ext := false; arg_verbose := false |}.

(** The reciprocal of a frame rate in thousandths, rounded as [.3f]
    rounds the float [1.0 / fps].  A reciprocal halfway between two
    thousandths goes where its float lies: 1/16 is exact and goes to the
    even neighbour, 1/80, 1/400 and 1/2000 lie above the half. *)
Definition thousandths (fps : Z) : Z :=
  let a := Z.abs fps in
  let q := 1000 / a in
  let r := 1000 mod a in
  if 2 * r <? a then q
  else if (2 * r =? a) && (a =? 16) then q
  else q + 1.

(** [.3f] as Python prints the reciprocal of a frame rate and the frame
    rate itself, for the frame rates a float holds exactly (53 bits, so
    every value of a 32-bit register).  At 0 the reciprocal has no value;
    the field is not asked for it. *)
Definition float_format : FloatFormat :=
  {| fmt_interval_3f := fun fps =>
       (if fps <? 0 then "-" else "")
         ++ fmt_d (thousandths fps / 1000) ++ "."
         ++ format_int dec_digits 3 (thousandths fps mod 1000);
     fmt_fps_3f := fun fps => fmt_d fps ++ ".000" |}.

End Mock.

(* ================================================================= *)
(** * Properties *)

(** ** Strings *)

Lemma append_inj_l (s a b : string) : s ++ a = s ++ b -> a = b.
Proof.
  induction s as [|c s IH]; simpl; intros H.
  - exact H.
  - injection H as H. auto.
Qed.

Lemma length_append (a b : string) :
  String.length (a ++ b) = (String.length a + String.length b)%nat.
Proof.
  induction a as [|c a IH]; simpl; [reflexivity | now rewrite IH].
Qed.

(** ** ISP firmware version *)

Lemma isp_id_field (v : Z) :
  Z.shiftr (Z.land v 0xFFFF0000) 16 = FirmwareVersionDecoder.id v.
Proof.
  unfold FirmwareVersionDecoder.id. now rewrite Z.shiftr_land.
Qed.

Lemma isp_id_high_field (i : Z) :
  Z.shiftr (Z.land i 0xFF00) 8 = Z.land (Z.shiftr i 8) 0xFF.
Proof. now rewrite Z.shiftr_land. Qed.

Lemma isp_year_range (v : Z) : 0 <= FirmwareVersionDecoder.year v < 128.
Proof.
  unfold FirmwareVersionDecoder.year, FirmwareVersionDecoder.date.
  change 0xFFFF with (Z.ones 16).
  rewrite Z.land_ones by lia. rewrite Z.shiftr_div_pow2 by lia.
  pose proof (Z.mod_pos_bound v (2 ^ 16) ltac:(lia)) as Hm.
  split.
  - apply Z.div_pos; lia.
  - apply Z.div_lt_upper_bound; lia.
Qed.

Lemma year_check_all (y : Z) : 0 <= y < 128 -> year_check y = true.
Proof.
  intros Hy.
  assert (Hall : forallb (fun n => year_check (Z.of_nat n)) (seq 0 128) = true)
    by (vm_compute; reflexivity).
  rewrite forallb_forall in Hall.
  specialize (Hall (Z.to_nat y)).
  rewrite Z2Nat.id in Hall by lia.
  apply Hall, in_seq. lia.
Qed.

(** The decoder on every word: the fields are those of the specification,
    and the text is [v{idHigh:x}.{idLow:02x} 20{year:02d}/{month:02d}/{day:02d}],
    the literal 20 followed by the year on at least two digits.  It is the
    specification's text, with the number [2000 + year], exactly when the
    year field is below 100, and differs from it for the year fields 100
    to 127; 0x01020A43 gives [v1.02 2005/02/03]. *)
Theorem parse_isp_fw_version_decodes (v : Z) :
  let idHigh := FirmwareVersionDecoder.idHigh v in
  let idLow := FirmwareVersionDecoder.idLow v in
  let year := FirmwareVersionDecoder.year v in
  let month := FirmwareVersionDecoder.month v in
  let day := FirmwareVersionDecoder.day v in
  parse_isp_fw_version v =
    "v" ++ fmt_x idHigh ++ "." ++ fmt_02x idLow ++ " 20" ++ fmt_02d year
        ++ "/" ++ fmt_02d month ++ "/" ++ fmt_02d day
  /\ (if year <? 100
      then parse_isp_fw_version v = FirmwareVersionDecoder.text v
      else parse_isp_fw_version v <> FirmwareVersionDecoder.text v)
  /\ parse_isp_fw_version 0x01020A43 = "v1.02 2005/02/03".
Proof.
  intros idHigh idLow year month day.
  assert (Hcode : parse_isp_fw_version v =
    "v" ++ fmt_x idHigh ++ "." ++ fmt_02x idLow ++ " 20" ++ fmt_02d year
        ++ "/" ++ fmt_02d month ++ "/" ++ fmt_02d day).
  { unfold parse_isp_fw_version.
    rewrite isp_id_field, isp_id_high_field. reflexivity. }
  split; [exact Hcode|]. split; [|vm_compute; reflexivity].
  pose proof (year_check_all year (isp_year_range v)) as Hy.
  unfold year_check in Hy.
  rewrite Hcode. unfold FirmwareVersionDecoder.text.
  fold idHigh idLow year month day.
  remember (fmt_x idHigh) as A. remember (fmt_02x idLow) as B.
  remember (fmt_02d year) as Y. remember (fmt_d (2000 + year)) as Y'.
  remember ("/" ++ fmt_02d month ++ "/" ++ fmt_02d day) as R.
  clear - Hy.
  destruct (year <? 100).
  - apply String.eqb_eq in Hy. subst Y'.
    do 4 apply (f_equal (String.append _)). reflexivity.
  - apply andb_true_iff in Hy as [H3 H4].
    apply Nat.eqb_eq in H3, H4.
    intros Heq.
    apply (append_inj_l "v"), append_inj_l, (append_inj_l "."),
      append_inj_l in Heq.
    apply (f_equal String.length) in Heq.
    cbn [String.append String.length] in Heq.
    rewrite !length_append in Heq. lia.
Qed.

(** C3: the decoder at the word 0x0102C843, whose year field is 100.  The
    code prints the year as [20100], the literal 20 before the field,
    where the specification's text has the number [2000 + year], 2100. *)
Lemma parse_isp_fw_version_year_100 :
  0 <= 0x0102C843 < 2 ^ 32 /\
  FirmwareVersionDecoder.year 0x0102C843 = 100 /\
  parse_isp_fw_version 0x0102C843 = "v1.02 20100/02/03" /\
  FirmwareVersionDecoder.text 0x0102C843 = "v1.02 2100/02/03" /\
  parse_isp_fw_version 0x0102C843 <> FirmwareVersionDecoder.text 0x0102C843.
Proof.
  split; [lia|]. split; [reflexivity|].
  split; [vm_compute; reflexivity|]. split; [vm_compute; reflexivity|].
  vm_compute. discriminate.
Qed.

(** ** FOURCC derivation *)

(** C6: the FOURCC of [list_formats] is the Bayer-table entry (default
    RGGB) for a RAW-class type, the YUV-table entry (default YUYV) for a
    YUV-class type, MJPG for JPEG and UNKN for every other type code. *)
Theorem list_formats_fourcc_spec (pix_type pix_order : Z) :
  list_formats_fourcc pix_type pix_order =
    CapabilityDecoder.fourcc pix_type pix_order
  /\ (CapabilityDecoder.class_of pix_type = CapabilityDecoder.RAW ->
      dict_find raw_bayer_order pix_order = None ->
      list_formats_fourcc pix_type pix_order = "RGGB")
  /\ (CapabilityDecoder.class_of pix_type = CapabilityDecoder.YUV ->
      dict_find yuv_order pix_order = None ->
      list_formats_fourcc pix_type pix_order = "YUYV")
  /\ (CapabilityDecoder.class_of pix_type = CapabilityDecoder.JPEG ->
      list_formats_fourcc pix_type pix_order = "MJPG")
  /\ (CapabilityDecoder.class_of pix_type = CapabilityDecoder.OTHER ->
      list_formats_fourcc pix_type pix_order = "UNKN").
Proof.
  assert (Heq : list_formats_fourcc pix_type pix_order =
                CapabilityDecoder.fourcc pix_type pix_order).
  { unfold list_formats_fourcc, CapabilityDecoder.fourcc,
      CapabilityDecoder.class_of, dict_get, Zmem, pix_type_map.
    cbn [existsb dict_find]. rewrite !(Z.eqb_sym _ pix_type).
    repeat match goal with
    | |- context [pix_type =? ?k] =>
        destruct (Z.eqb_spec pix_type k) as [->|?]; [reflexivity|]
    end.
    reflexivity. }
  split; [exact Heq|]. rewrite Heq. unfold CapabilityDecoder.fourcc.
  repeat split; intros Hc; rewrite Hc; try reflexivity; intros ->; reflexivity.
Qed.

(** C6 at RAW10 with an unmapped order, YUV422 with an unmapped order,
    JPEG, and an unmapped type. *)
Lemma list_formats_fourcc_spec_witness :
  list_formats_fourcc 0x2B 9 = "RGGB" /\
  list_formats_fourcc 0x1E 9 = "YUYV" /\
  list_formats_fourcc 0x30 0 = "MJPG" /\
  list_formats_fourcc 0x77 0 = "UNKN".
Proof.
  pose proof (list_formats_fourcc_spec 0x2B 9) as (_ & H1 & _).
  pose proof (list_formats_fourcc_spec 0x1E 9) as (_ & _ & H2 & _).
  pose proof (list_formats_fourcc_spec 0x30 0) as (_ & _ & _ & H3 & _).
  pose proof (list_formats_fourcc_spec 0x77 0) as (_ & _ & _ & _ & H4).
  refine (conj (H1 _ _) (conj (H2 _ _) (conj (H3 _) (H4 _)))); reflexivity.
Defined.

(* ================================================================= *)
(** ** Runs of the probe monad *)

Lemma reads_of_app reg t1 t2 :
  reads_of reg (t1 ++ t2) = (reads_of reg t1 ++ reads_of reg t2)%list.
Proof.
  induction t1 as [|[r v|r v| |s] t1 IH]; cbn [reads_of app]; auto.
  destruct (r =? reg); cbn [app]; now rewrite IH.
Qed.

Lemma writes_of_app reg t1 t2 :
  writes_of reg (t1 ++ t2) = (writes_of reg t1 ++ writes_of reg t2)%list.
Proof.
  induction t1 as [|[r v|r v| |s] t1 IH]; cbn [writes_of app]; auto.
  destruct (r =? reg); cbn [app]; now rewrite IH.
Qed.

Lemma prints_of_app t1 t2 :
  prints_of (t1 ++ t2) = (prints_of t1 ++ prints_of t2)%list.
Proof.
  induction t1 as [|[r v|r v| |s] t1 IH]; cbn [prints_of app]; auto.
  now rewrite IH.
Qed.

Lemma sleeps_of_app t1 t2 :
  sleeps_of (t1 ++ t2) = (sleeps_of t1 + sleeps_of t2)%nat.
Proof.
  induction t1 as [|[r v|r v| |s] t1 IH]; cbn [sleeps_of app]; auto.
  now rewrite IH.
Qed.

Section Runs.

Variable T : Transport.

Lemma bind_inv {A B} (m : M T A) (k : A -> M T B) d o d' tr :
  bind m k d = (o, d', tr) ->
  (exists a d1 t1 t2,
      m d = (Ok a, d1, t1) /\ k a d1 = (o, d', t2) /\ tr = (t1 ++ t2)%list)
  \/ (exists e, m d = (Raise e, d', tr) /\ o = Raise e)
  \/ (m d = (OutOfFuel, d', tr) /\ o = OutOfFuel).
Proof.
  unfold bind. destruct (m d) as [[[a|e|] d1] t1].
  - destruct (k a d1) as [[o2 d2] t2] eqn:Hk. intros [= <- <- <-].
    left. exists a, d1, t1, t2. auto.
  - intros [= <- <- <-]. right; left. exists e. auto.
  - intros [= <- <- <-]. right; right. auto.
Qed.

Lemma readReg_inv reg d o d' tr :
  readReg T reg d = (o, d', tr) ->
  (exists v, read_16_32 T d i2c_address reg = Some (v, d')
             /\ o = Ok v /\ tr = [EvRead reg v])
  \/ (read_16_32 T d i2c_address reg = None
      /\ o = Raise TransportError /\ d' = d /\ tr = []).
Proof.
  unfold readReg. destruct (read_16_32 T d i2c_address reg) as [[v d1]|].
  - intros [= <- <- <-]. left. exists v. auto.
  - intros [= <- <- <-]. right. auto.
Qed.

Lemma writeReg_inv reg val d o d' tr :
  writeReg T reg val d = (o, d', tr) ->
  (write_16_32 T d i2c_address reg val = Some d'
   /\ o = Ok tt /\ tr = [EvWrite reg val])
  \/ (write_16_32 T d i2c_address reg val = None
      /\ o = Raise TransportError /\ d' = d /\ tr = []).
Proof.
  unfold writeReg. destruct (write_16_32 T d i2c_address reg val) as [d1|].
  - intros [= <- <- <-]. left. auto.
  - intros [= <- <- <-]. right. auto.
Qed.

End Runs.

(** Decide a test between two closed register numbers or constants. *)
Ltac reg_eqb :=
  repeat match goal with
  | |- context [Z.eqb ?a ?b] =>
      let v := eval vm_compute in (Z.eqb a b) in
      match v with
      | true => change (Z.eqb a b) with true
      | false => change (Z.eqb a b) with false
      end
  | H : context [Z.eqb ?a ?b] |- _ =>
      let v := eval vm_compute in (Z.eqb a b) in
      match v with
      | true => change (Z.eqb a b) with true in H
      | false => change (Z.eqb a b) with false in H
      end
  end.

(** Normalise the observations of a trace built from events and
    appends. *)
Ltac obs :=
  repeat (rewrite ?reads_of_app, ?writes_of_app, ?prints_of_app,
            ?sleeps_of_app;
          cbn [reads_of writes_of prints_of sleeps_of app];
          reg_eqb; cbn match).

(** Use an equation between outcomes, whatever its sides. *)
Ltac eq_outcome H :=
  first [ discriminate H
        | injection H as H; try subst
        | subst ].

(** Take a run apart, down to the calls of loops and functions: each
    bind and each register access splits into the step done and the
    step failed. *)
Ltac run_inv H :=
  cbn beta in H;
  lazymatch type of H with
  | bind _ _ _ = _ =>
      let a := fresh "a" in let d1 := fresh "d" in
      let t1 := fresh "t" in let t2 := fresh "t" in
      let e := fresh "e" in let Hm := fresh "Hm" in
      let Ho := fresh "Ho" in let Ht := fresh "Ht" in
      apply bind_inv in H;
      destruct H as [(a & d1 & t1 & t2 & Hm & H & Ht)
                    | [(e & Hm & Ho) | (Hm & Ho)]];
      [ try subst; run_inv Hm; run_inv H
      | eq_outcome Ho; run_inv Hm
      | eq_outcome Ho; run_inv Hm ]
  | readReg _ _ _ = _ =>
      let v := fresh "v" in let d1 := fresh "d" in
      let Hrd := fresh "Hrd" in
      unfold readReg in H;
      lazymatch type of H with
      | context [read_16_32 ?T' ?d' ?a' ?r'] =>
          destruct (read_16_32 T' d' a' r') as [[v d1]|] eqn:Hrd
      end;
      inversion H; subst; clear H
  | writeReg _ _ _ _ = _ =>
      let d1 := fresh "d" in let Hwr := fresh "Hwr" in
      unfold writeReg in H;
      lazymatch type of H with
      | context [write_16_32 ?T' ?d' ?a' ?r' ?v'] =>
          destruct (write_16_32 T' d' a' r' v') as [d1|] eqn:Hwr
      end;
      inversion H; subst; clear H
  | ret _ _ = _ => unfold ret in H; inversion H; subst; clear H
  | raise _ _ = _ => unfold raise in H; inversion H; subst; clear H
  | out_of_fuel _ = _ => unfold out_of_fuel in H; inversion H; subst; clear H
  | wait_for_free _ _ = _ => unfold wait_for_free in H; inversion H; subst; clear H
  | print _ _ _ = _ => unfold print in H; inversion H; subst; clear H
  | logging _ _ _ _ = _ => unfold logging, print in H; inversion H; subst; clear H
  | chr _ _ _ = _ => unfold chr in H; run_inv H
  | (if ?c then _ else _) _ = _ =>
      let E := fresh "E" in destruct c eqn:E; run_inv H
  | _ => idtac
  end.

Lemma zrange_S start n : zrange start (S n) = start :: zrange (start + 1) n.
Proof.
  unfold zrange. cbn [seq map]. f_equal; [lia|].
  rewrite <- seq_shift, map_map. apply map_ext. intros; lia.
Qed.

Lemma zrange_1 start : zrange start 1 = [start].
Proof. unfold zrange. cbn [seq map]. f_equal. lia. Qed.

Lemma zrange_0 n : zrange 0 n = range (Z.of_nat n).
Proof.
  unfold zrange, range. rewrite Nat2Z.id. apply map_ext. intros; lia.
Qed.

Section MaxFps.

Variable T : Transport.

(** The shape of every run of the max-fps scan. *)
Lemma max_fps_loop_run fuel : forall c d o d' tr,
  max_fps_loop T fuel c d = (o, d', tr) ->
  sleeps_of tr = O /\ writes_of CTRL_VALUE_REG tr = [] /\
  exists vs,
    Forall (fun x => x <> NO_DATA_AVAILABLE /\ x <> FRAMERATE_ID) vs /\
    ( (o = Ok None /\ reads_of CTRL_ID_REG tr = (vs ++ [NO_DATA_AVAILABLE])%list
       /\ writes_of CTRL_INDEX_REG tr = zrange c (S (List.length vs))
       /\ reads_of CTRL_MAX_REG tr = [])
    \/ (exists m, o = Ok (Some m)
       /\ reads_of CTRL_ID_REG tr = (vs ++ [FRAMERATE_ID])%list
       /\ writes_of CTRL_INDEX_REG tr = zrange c (S (List.length vs))
       /\ reads_of CTRL_MAX_REG tr = [m])
    \/ ((o = Raise TransportError \/ o = OutOfFuel)
       /\ (reads_of CTRL_ID_REG tr = vs
           \/ (reads_of CTRL_ID_REG tr = (vs ++ [FRAMERATE_ID])%list
               /\ o = Raise TransportError
               /\ writes_of CTRL_INDEX_REG tr = zrange c (S (List.length vs))))
       /\ reads_of CTRL_MAX_REG tr = []) ).
Proof.
  induction fuel as [|fuel IH]; intros c d o d' tr H; cbn [max_fps_loop] in H.
  - run_inv H. obs. repeat split; auto. exists []. split; auto.
    right; right. auto.
  - run_inv H; obs.
    + (* the sentinel *)
      apply Z.eqb_eq in E. subst a.
      repeat split; auto. exists []. split; auto.
      left. now rewrite zrange_1.
    + (* Framerate, maximum read *)
      apply Z.eqb_eq in E0. subst a.
      repeat split; auto. exists []. split; auto.
      right; left. eexists. rewrite zrange_1. repeat split; reflexivity.
    + (* Framerate, maximum not readable *)
      apply Z.eqb_eq in E0. subst a.
      repeat split; auto. exists []. split; auto.
      right; right. split; [auto|]. split; [|auto].
      right. now rewrite zrange_1.
    + (* another control: next index *)
      apply Z.eqb_neq in E, E0.
      apply IH in H as (Hs & Hw & vs & Hvs & Hcases).
      rewrite Hs, Hw. repeat split; auto.
      exists (a :: vs). split; [constructor; auto|].
      cbn [List.length app]. rewrite (zrange_S c).
      destruct Hcases as [(-> & -> & -> & ->)
                         | [(m & -> & -> & -> & ->)
                           | (Ho & Hr & ->)]].
      * left. auto.
      * right; left. exists m. auto.
      * right; right. split; [exact Ho|]. split; [|reflexivity].
        destruct Hr as [-> | (-> & -> & ->)]; [left|right]; auto.
    + repeat split; auto. exists []. split; auto.
      right; right. auto.
    + repeat split; auto. exists []. split; auto.
      right; right. auto.
Qed.

End MaxFps.

(** ** Registers touched by a run *)

Lemma only_regs_app regs t1 t2 :
  only_regs regs (t1 ++ t2) = only_regs regs t1 && only_regs regs t2.
Proof. apply forallb_app. Qed.

Lemma only_regs_reads regs tr reg :
  only_regs regs tr = true -> Zmem reg regs = false -> reads_of reg tr = [].
Proof.
  intros Htr Hreg. induction tr as [|e tr IH]; [reflexivity|].
  cbn [only_regs forallb] in Htr. apply andb_true_iff in Htr as [He Htr].
  specialize (IH Htr). destruct e as [r v|r v| |s]; cbn [reads_of]; auto.
  destruct (Z.eqb_spec r reg) as [->|_]; auto.
  cbn [ev_on] in He. congruence.
Qed.

Lemma only_regs_writes regs tr reg :
  only_regs regs tr = true -> Zmem reg regs = false -> writes_of reg tr = [].
Proof.
  intros Htr Hreg. induction tr as [|e tr IH]; [reflexivity|].
  cbn [only_regs forallb] in Htr. apply andb_true_iff in Htr as [He Htr].
  specialize (IH Htr). destruct e as [r v|r v| |s]; cbn [writes_of]; auto.
  destruct (Z.eqb_spec r reg) as [->|_]; auto.
  cbn [ev_on] in He. congruence.
Qed.

Lemma only_regs_weaken regs regs' tr :
  (forall r, Zmem r regs = true -> Zmem r regs' = true) ->
  only_regs regs tr = true -> only_regs regs' tr = true.
Proof.
  intros Hsub. unfold only_regs. rewrite !forallb_forall.
  intros H e He. specialize (H e He).
  destruct e; cbn [ev_on] in *; auto.
Qed.

Section Regs.

Variable T : Transport.

Lemma max_fps_loop_regs fuel : forall c d o d' tr,
  max_fps_loop T fuel c d = (o, d', tr) -> only_regs scan_regs tr = true.
Proof.
  induction fuel as [|fuel IH]; intros c d o d' tr H; cbn [max_fps_loop] in H.
  - run_inv H. reflexivity.
  - run_inv H; rewrite ?only_regs_app; try reflexivity.
    apply IH in H. rewrite H. reflexivity.
Qed.

End Regs.

(** ** Resolution paging *)

(** Turn the tests of a run into equations and disequations. *)
Ltac tests :=
  repeat match goal with
  | H : (_ =? _) = true |- _ => apply Z.eqb_eq in H
  | H : (_ =? _) = false |- _ => apply Z.eqb_neq in H
  | H : (_ >? _) = true |- _ => rewrite Z.gtb_ltb in H; apply Z.ltb_lt in H
  | H : (_ >? _) = false |- _ => rewrite Z.gtb_ltb in H; apply Z.ltb_ge in H
  | H : (_ <? _) = true |- _ => apply Z.ltb_lt in H
  | H : (_ <? _) = false |- _ => apply Z.ltb_ge in H
  end.

Section EnumResolutions.

Variable T : Transport.

Lemma max_fps_loop_ok fuel c d a d' tr :
  max_fps_loop T fuel c d = (Ok a, d', tr) ->
  reads_of CTRL_MAX_REG tr = match a with Some m => [m] | None => [] end.
Proof.
  intros H. apply max_fps_loop_run in H as (_ & _ & vs & _ & Hc).
  destruct Hc as [(Ho & _ & _ & Hr) | [(m & Ho & _ & _ & Hr) | ([Ho|Ho] & _)]];
    try discriminate Ho; injection Ho as ->; exact Hr.
Qed.

Lemma max_fps_loop_raise fuel c d e d' tr :
  max_fps_loop T fuel c d = (Raise e, d', tr) -> e = TransportError.
Proof.
  intros H. apply max_fps_loop_run in H as (_ & _ & vs & _ & Hc).
  destruct Hc as [(Ho & _) | [(m & Ho & _) | ([Ho|Ho] & _)]];
    try discriminate Ho. now injection Ho.
Qed.

(** The shape of every run of the resolution loop: either it returns,
    having read the sentinel last, with one descriptor for each index
    before it; or it does not return and has read no sentinel. *)
Lemma enum_resolutions_loop_run fuel : forall i acc d o d' tr,
  enum_resolutions_loop T fuel i acc d = (o, d', tr) ->
  sleeps_of tr = O /\ writes_of CTRL_VALUE_REG tr = [] /\
  ( (exists rs vs,
        o = Ok (acc ++ rs)%list
        /\ List.length vs = List.length rs
        /\ ~ In NO_DATA_AVAILABLE vs
        /\ reads_of RESOLUTION_INDEX_REG tr = (vs ++ [NO_DATA_AVAILABLE])%list
        /\ writes_of RESOLUTION_INDEX_REG tr = zrange i (S (List.length rs))
        /\ map index rs = zrange i (List.length rs)
        /\ map width rs = reads_of FORMAT_WIDTH_REG tr
        /\ map height rs = reads_of FORMAT_HEIGHT_REG tr
        /\ fps_values rs = reads_of CTRL_MAX_REG tr
        /\ exists pre,
             tr = (pre ++ [EvRead RESOLUTION_INDEX_REG NO_DATA_AVAILABLE])%list)
    \/ ((o = Raise TransportError \/ o = OutOfFuel)
        /\ ~ In NO_DATA_AVAILABLE (reads_of RESOLUTION_INDEX_REG tr)) ).
Proof.
  induction fuel as [|fuel IH]; intros i acc d o d' tr H;
    cbn [enum_resolutions_loop] in H.
  - run_inv H. obs. repeat split; auto.
  - run_inv H; tests;
      try match goal with
      | Hf : max_fps_loop _ _ _ _ = (Raise _, _, _) |- _ =>
          pose proof (max_fps_loop_raise _ _ _ _ _ _ Hf); subst
      end;
      try match goal with
      | Hf : max_fps_loop _ _ _ _ = (Ok _, _, _) |- _ =>
          pose proof (max_fps_loop_ok _ _ _ _ _ _ Hf)
      end;
      try match goal with
      | Hf : max_fps_loop _ _ _ _ = _ |- _ =>
          let Hregs := fresh "Hregs" in
          pose proof (max_fps_loop_regs _ _ _ _ _ _ _ Hf) as Hregs;
          pose proof (only_regs_reads _ _ RESOLUTION_INDEX_REG Hregs eq_refl);
          pose proof (only_regs_writes _ _ RESOLUTION_INDEX_REG Hregs eq_refl);
          pose proof (only_regs_reads _ _ FORMAT_WIDTH_REG Hregs eq_refl);
          pose proof (only_regs_reads _ _ FORMAT_HEIGHT_REG Hregs eq_refl);
          apply max_fps_loop_run in Hf;
          destruct Hf as (? & ? & _)
      end;
      obs;
      repeat match goal with
      | Hx : _ = _ |- _ => rewrite Hx
      end;
      cbn [app plus];
      try solve [ repeat split; auto; right; split; auto;
                  cbn [In]; intuition congruence ].
    + (* the sentinel at index i *)
      subst. repeat split; auto. left. exists [], [].
      rewrite app_nil_r, zrange_1. cbn [List.length map fps_values flat_map app].
      repeat split; auto.
      exists [EvWrite RESOLUTION_INDEX_REG i]. reflexivity.
    + (* an entry, then the rest of the list *)
      apply IH in H as (Hs & Hw & Hcases).
      rewrite Hs, Hw. repeat split; auto.
      destruct Hcases as [(rs & vs & -> & Hlen & Hnin & Hr & Hwi & Hidx & Hwd
                            & Hht & Hfps & pre & Hpre) | (Ho & Hnin)].
      * left.
        match goal with
        | |- context [ {| index := i; width := ?w; height := ?h;
                          max_fps := ?f |} ] =>
            exists ({| index := i; width := w; height := h; max_fps := f |}
                      :: rs), (a :: vs)
        end.
        rewrite <- app_assoc. cbn [app List.length map index width height].
        rewrite Hr, Hwi, Hidx, Hwd, Hht, <- Hfps, Hlen.
        rewrite <- !zrange_S. cbn [fps_values flat_map max_fps].
        repeat split; auto.
        -- cbn [In]. intuition congruence.
        -- rewrite Hpre. eexists. rewrite !app_comm_cons, app_assoc.
           reflexivity.
      * right. split; [exact Ho|]. cbn [In]. intuition congruence.
Qed.

End EnumResolutions.

(** ** Control paging *)

Lemma count_lines_app p t1 t2 :
  count_lines p (t1 ++ t2) = (count_lines p t1 + count_lines p t2)%nat.
Proof.
  unfold count_lines. now rewrite prints_of_app, filter_app, length_app.
Qed.

Section ControlLoop.

Variable T : Transport.

(** The shape of every run of the control loop of [main]. *)
Lemma main_ctrl_loop_run fuel : forall c d o d' tr,
  main_ctrl_loop T fuel c d = (o, d', tr) ->
  only_regs ctrl_regs tr = true /\
  count_lines pixelformat_prefix tr = O /\
  prints_of tr =
    control_lines (reads_of CTRL_ID_REG tr) (reads_of CTRL_MAX_REG tr)
      (reads_of CTRL_MIN_REG tr) (reads_of CTRL_DEF_REG tr) /\
  ( (exists vs,
        o = Ok tt
        /\ ~ In NO_DATA_AVAILABLE vs
        /\ reads_of CTRL_ID_REG tr = (vs ++ [NO_DATA_AVAILABLE])%list
        /\ writes_of CTRL_INDEX_REG tr = zrange c (S (List.length vs))
        /\ List.length (prints_of tr) = List.length vs
        /\ exists pre,
             tr = (pre ++ [EvRead CTRL_ID_REG NO_DATA_AVAILABLE])%list)
    \/ ((o = Raise TransportError \/ o = OutOfFuel)
        /\ ~ In NO_DATA_AVAILABLE (reads_of CTRL_ID_REG tr)) ).
Proof.
  induction fuel as [|fuel IH]; intros c d o d' tr H;
    cbn [main_ctrl_loop] in H.
  - run_inv H. obs. repeat split; auto.
  - run_inv H; tests; rewrite ?only_regs_app, ?count_lines_app; obs;
      try solve [ repeat split; auto; right; split; auto;
                  cbn [In]; intuition congruence ].
    + (* the sentinel at index c *)
      subst. repeat split; auto. left. exists [].
      rewrite zrange_1. cbn [List.length app]. repeat split; auto.
      exists [EvWrite CTRL_INDEX_REG c]. reflexivity.
    + (* a control, then the rest of the list *)
      apply IH in H as (Hregs & Hcnt & Hpr & Hcases).
      rewrite Hregs, Hcnt, Hpr. cbn [control_lines].
      repeat split; auto.
      destruct Hcases as [(vs & -> & Hnin & Hr & Hwi & Hlen & pre & Hpre)
                         | (Ho & Hnin)].
      * left. exists (a :: vs). cbn [app List.length].
        rewrite <- Hpr, Hlen, Hr, Hwi, <- zrange_S.
        repeat split; auto.
        -- cbn [In]. intuition congruence.
        -- rewrite Hpre. eexists. rewrite !app_comm_cons. reflexivity.
      * right. split; [exact Ho|]. cbn [In]. intuition congruence.
Qed.

End ControlLoop.

(** ** The timing contract of the control loop *)

Ltac settle_eval :=
  repeat (cbn [bounds_settled app];
          repeat match goal with
          | |- context [is_bound_reg ?r] =>
              let v := eval vm_compute in (is_bound_reg r) in
              change (is_bound_reg r) with v
          end;
          reg_eqb; cbn match).

Section Settle.

Variable T : Transport.

Lemma main_ctrl_loop_settled fuel : forall c d o d' tr st,
  main_ctrl_loop T fuel c d = (o, d', tr) -> bounds_settled st tr = true.
Proof.
  induction fuel as [|fuel IH]; intros c d o d' tr st H;
    cbn [main_ctrl_loop] in H.
  - run_inv H. reflexivity.
  - run_inv H; settle_eval; try reflexivity.
    eapply IH; eassumption.
Qed.

End Settle.

(** ** Pixel-format paging *)

Section PixLoop.

Variable T : Transport.

Lemma enum_resolutions_loop_regs fuel : forall i acc d o d' tr,
  enum_resolutions_loop T fuel i acc d = (o, d', tr) ->
  only_regs resolution_regs tr = true /\ prints_of tr = [].
Proof.
  induction fuel as [|fuel IH]; intros i acc d o d' tr H;
    cbn [enum_resolutions_loop] in H.
  - run_inv H. split; reflexivity.
  - assert (Hscan : forall fuel c d o d' tr,
               max_fps_loop T fuel c d = (o, d', tr) ->
               only_regs resolution_regs tr = true /\ prints_of tr = []).
    { clear. intros fuel. induction fuel as [|fuel IH]; intros c d o d' tr H;
        cbn [max_fps_loop] in H.
      - run_inv H. split; reflexivity.
      - run_inv H; rewrite ?only_regs_app; obs; try (split; reflexivity).
        apply IH in H as [-> ->]. split; reflexivity. }
    run_inv H; rewrite ?only_regs_app; obs; try (split; reflexivity);
      repeat match goal with
      | Hf : max_fps_loop _ _ _ _ = _ |- _ => apply Hscan in Hf as [-> ->]
      | Hf : enum_resolutions_loop _ _ _ _ _ = _ |- _ => apply IH in Hf as [-> ->]
      end; split; reflexivity.
Qed.

Lemma bounds_settled_app t1 : forall st t2,
  bounds_settled st t1 = true ->
  (forall st', bounds_settled st' t2 = true) ->
  bounds_settled st (t1 ++ t2) = true.
Proof.
  induction t1 as [|e t1 IH]; intros st t2 H1 H2; cbn [app]; [apply H2|].
  destruct e as [r v|r v| |s]; cbn [bounds_settled] in *.
  - destruct (r =? CTRL_INDEX_REG); [auto|].
    destruct (r =? CTRL_VALUE_REG); auto.
  - destruct (is_bound_reg r); [|auto].
    destruct st; try discriminate; auto.
  - auto.
  - auto.
Qed.

Lemma main_resolution_run fuel (r : resolution) d o d' tr :
  main_resolution T fuel r d = (o, d', tr) ->
  only_regs ctrl_regs tr = true /\
  count_lines pixelformat_prefix tr = O /\
  (o = Ok tt \/ o = Raise TransportError \/ o = OutOfFuel) /\
  forall st, bounds_settled st tr = true.
Proof.
  unfold main_resolution. intros H. run_inv H.
  pose proof (fun st => main_ctrl_loop_settled _ _ _ _ _ _ _ st H) as Hs.
  apply main_ctrl_loop_run in H as (Hregs & Hcnt & _ & Hc).
  rewrite only_regs_app, count_lines_app, Hregs, Hcnt.
  split; [reflexivity|]. split; [reflexivity|].
  split; [|intros st; cbn [bounds_settled app]; apply Hs].
  destruct Hc as [(vs & -> & _) | ([->| ->] & _)]; auto.
Qed.

Lemma main_resolutions_run fuel (rs : list resolution) : forall d o d' tr,
  for_each rs (main_resolution T fuel) d = (o, d', tr) ->
  only_regs ctrl_regs tr = true /\
  count_lines pixelformat_prefix tr = O /\
  (o = Ok tt \/ o = Raise TransportError \/ o = OutOfFuel) /\
  forall st, bounds_settled st tr = true.
Proof.
  induction rs as [|r rs IH]; intros d o d' tr H; cbn [for_each] in H.
  - run_inv H. repeat split; auto.
  - apply bind_inv in H
      as [(a & d1 & t1 & t2 & Hm & H & ->) | [(e & Hm & ->) | (Hm & ->)]].
    + apply main_resolution_run in Hm as (Hr1 & Hc1 & _ & Hs1).
      apply IH in H as (Hr2 & Hc2 & Ho & Hs2).
      rewrite only_regs_app, count_lines_app, Hr1, Hr2, Hc1, Hc2.
      repeat split; auto. intros st. apply bounds_settled_app; auto.
    + apply main_resolution_run in Hm. exact Hm.
    + apply main_resolution_run in Hm. exact Hm.
Qed.

Lemma pixelformat_line_prefix dtype order lanes :
  String.prefix pixelformat_prefix
    (log_line (pixelformat_line dtype order lanes) INFO) = true.
Proof. destruct order as [[|c o]|]; reflexivity. Qed.

Lemma count_lines_print p s tr :
  count_lines p (EvPrint s :: tr) =
    ((if String.prefix p s then 1 else 0) + count_lines p tr)%nat.
Proof.
  unfold count_lines. cbn [prints_of filter].
  destruct (String.prefix p s); reflexivity.
Qed.

Lemma count_lines_read p r v : count_lines p [EvRead r v] = O.
Proof. reflexivity. Qed.

Lemma count_lines_write p r v : count_lines p [EvWrite r v] = O.
Proof. reflexivity. Qed.

Lemma count_lines_nil p : count_lines p [] = O.
Proof. reflexivity. Qed.

Lemma count_lines_quiet p tr : prints_of tr = [] -> count_lines p tr = O.
Proof. unfold count_lines. now intros ->. Qed.

(** The shape of every run of the pixel-format loop of [main]. *)
Lemma main_pix_loop_run fuel : forall c d o d' tr,
  main_pix_loop T fuel c d = (o, d', tr) ->
  (exists vs,
      o = Ok tt
      /\ ~ In NO_DATA_AVAILABLE vs
      /\ reads_of PIXFORMAT_INDEX_REG tr = (vs ++ [NO_DATA_AVAILABLE])%list
      /\ writes_of PIXFORMAT_INDEX_REG tr = zrange c (S (List.length vs))
      /\ count_lines pixelformat_prefix tr = List.length vs
      /\ List.length (reads_of PIXFORMAT_TYPE_REG tr) = List.length vs
      /\ exists pre,
           tr = (pre ++ [EvRead PIXFORMAT_INDEX_REG NO_DATA_AVAILABLE])%list)
  \/ ((o = Raise TransportError \/ o = OutOfFuel)
      /\ ~ In NO_DATA_AVAILABLE (reads_of PIXFORMAT_INDEX_REG tr)).
Proof.
  induction fuel as [|fuel IH]; intros c d o d' tr H;
    cbn [main_pix_loop] in H.
  - run_inv H. obs. auto.
  - run_inv H; tests;
      repeat match goal with
      | He : enum_resolutions _ _ _ = _ |- _ =>
          unfold enum_resolutions in He;
          let Hq := fresh "Hq" in let Hr := fresh "Hregs" in
          pose proof (enum_resolutions_loop_regs _ _ _ _ _ _ _ He) as [Hr Hq];
          pose proof (only_regs_reads _ _ PIXFORMAT_INDEX_REG Hr eq_refl);
          pose proof (only_regs_writes _ _ PIXFORMAT_INDEX_REG Hr eq_refl);
          pose proof (only_regs_reads _ _ PIXFORMAT_TYPE_REG Hr eq_refl);
          pose proof (count_lines_quiet pixelformat_prefix _ Hq);
          apply enum_resolutions_loop_run in He as (_ & _ & He);
          clear Hr Hq
      | Hf : for_each _ (main_resolution _ _) _ = _ |- _ =>
          let Hr := fresh "Hregs" in
          apply main_resolutions_run in Hf as (Hr & ? & Hf & _);
          pose proof (only_regs_reads _ _ PIXFORMAT_INDEX_REG Hr eq_refl);
          pose proof (only_regs_writes _ _ PIXFORMAT_INDEX_REG Hr eq_refl);
          pose proof (only_regs_reads _ _ PIXFORMAT_TYPE_REG Hr eq_refl);
          clear Hr
      end;
      rewrite ?count_lines_app; obs;
      rewrite ?count_lines_read, ?count_lines_write, ?count_lines_nil,
        ?count_lines_print, ?pixelformat_line_prefix;
      repeat match goal with
      | Hx : reads_of _ _ = [] |- _ => rewrite Hx
      | Hx : writes_of _ _ = [] |- _ => rewrite Hx
      | Hx : count_lines _ _ = O |- _ => rewrite Hx
      end;
      cbn [app plus];
      try solve [ right; split; [|cbn [In]; intuition congruence];
                  repeat match goal with
                  | Hx : _ \/ _ |- _ => destruct Hx
                  | Hx : exists _, _ |- _ => destruct Hx
                  | Hx : _ /\ _ |- _ => destruct Hx
                  end; subst; try congruence; auto ].
    + (* the sentinel at index c *)
      subst. left. exists []. rewrite zrange_1. cbn [List.length app].
      repeat split; auto.
      exists [EvWrite PIXFORMAT_INDEX_REG c]. reflexivity.
    + (* a format, then the rest of the list *)
      apply IH in H as [(vs & -> & Hnin & Hr & Hwi & Hcnt & Hty & pre & Hpre)
                       | (Ho & Hnin)].
      * left. exists (a :: vs). cbn [app List.length].
        rewrite Hr, Hwi, Hcnt, Hty, <- zrange_S.
        repeat split; auto.
        -- cbn [In]. intuition congruence.
        -- rewrite Hpre. eexists. rewrite !app_comm_cons, !app_assoc.
           reflexivity.
      * right. split; [exact Ho|]. cbn [In]. intuition congruence.
    + right. split; [|cbn [In]; intuition congruence].
      destruct Hm as [(rs & vs & Ho & _) | ([Ho|Ho] & _)]; try congruence.
      injection Ho as ->. auto.
Qed.

End PixLoop.

(** ** More fuel changes nothing once a run has ended *)

Section Fuel.

Variable T : Transport.










End Fuel.

(** ** C1: the sentinel ends the enumeration *)



(** ** C2: no iteration ceiling *)

(** On a reliable transport a failing access is absurd. *)
Ltac reliable_absurd HT :=
  match goal with
  | Hrd : read_16_32 _ _ _ _ = None |- _ =>
      exfalso; exact (proj1 HT _ _ _ Hrd)
  | Hwr : write_16_32 _ _ _ _ _ = None |- _ =>
      exfalso; exact (proj2 HT _ _ _ _ Hwr)
  end.

Section NoCeiling.

Variable T : Transport.
Hypothesis HT : reliable T.

Lemma max_fps_loop_reliable fuel : forall c d o d' tr,
  max_fps_loop T fuel c d = (o, d', tr) -> (exists a, o = Ok a) \/ o = OutOfFuel.
Proof.
  induction fuel as [|fuel IH]; intros c d o d' tr H; cbn [max_fps_loop] in H.
  - run_inv H. auto.
  - run_inv H; try reliable_absurd HT; eauto.
Qed.

Lemma enum_resolutions_loop_reliable fuel : forall i acc d o d' tr,
  enum_resolutions_loop T fuel i acc d = (o, d', tr) ->
  (exists a, o = Ok a) \/ o = OutOfFuel.
Proof.
  induction fuel as [|fuel IH]; intros i acc d o d' tr H;
    cbn [enum_resolutions_loop] in H.
  - run_inv H. auto.
  - run_inv H; try reliable_absurd HT; eauto.
    match goal with
    | Hf : max_fps_loop _ _ _ _ = _ |- _ =>
        apply max_fps_loop_reliable in Hf as [(? & Hf)|Hf]; discriminate Hf
    end.
Qed.

Lemma main_ctrl_loop_reliable fuel : forall c d o d' tr,
  main_ctrl_loop T fuel c d = (o, d', tr) -> o = Ok tt \/ o = OutOfFuel.
Proof.
  induction fuel as [|fuel IH]; intros c d o d' tr H; cbn [main_ctrl_loop] in H.
  - run_inv H. auto.
  - run_inv H; try reliable_absurd HT; eauto.
Qed.

Lemma main_resolutions_reliable fuel rs : forall d o d' tr,
  for_each rs (main_resolution T fuel) d = (o, d', tr) ->
  o = Ok tt \/ o = OutOfFuel.
Proof.
  induction rs as [|r rs IH]; intros d o d' tr H; cbn [for_each] in H.
  - run_inv H. auto.
  - unfold main_resolution in H at 1. run_inv H; eauto;
      match goal with
      | Hc : main_ctrl_loop _ _ _ _ = _ |- _ =>
          apply main_ctrl_loop_reliable in Hc as [Hc|Hc]; try discriminate Hc
      end; auto.
Qed.

(** A resolution list that never ends keeps [enum_resolutions] running,
    whatever the number of iterations allowed. *)
Lemma enum_resolutions_loop_diverges :
  never_sentinel T RESOLUTION_INDEX_REG ->
  forall fuel i acc d o d' tr,
    enum_resolutions_loop T fuel i acc d = (o, d', tr) -> o = OutOfFuel.
Proof.
  intros HN fuel.
  induction fuel as [|fuel IH]; intros i acc d o d' tr H;
    cbn [enum_resolutions_loop] in H.
  - run_inv H. reflexivity.
  - run_inv H; tests; try reliable_absurd HT; eauto.
    + exfalso. eapply HN; eauto.
    + match goal with
      | Hf : max_fps_loop _ _ _ _ = _ |- _ =>
          apply max_fps_loop_reliable in Hf as [(? & Hf)|Hf]; discriminate Hf
      end.
Qed.

Lemma main_ctrl_loop_diverges :
  never_sentinel T CTRL_ID_REG ->
  forall fuel c d o d' tr,
    main_ctrl_loop T fuel c d = (o, d', tr) -> o = OutOfFuel.
Proof.
  intros HN fuel.
  induction fuel as [|fuel IH]; intros c d o d' tr H;
    cbn [main_ctrl_loop] in H.
  - run_inv H. reflexivity.
  - run_inv H; tests; try reliable_absurd HT; eauto.
    exfalso. eapply HN; eauto.
Qed.

Lemma main_pix_loop_diverges :
  never_sentinel T PIXFORMAT_INDEX_REG ->
  forall fuel c d o d' tr,
    main_pix_loop T fuel c d = (o, d', tr) -> o = OutOfFuel.
Proof.
  intros HN fuel.
  induction fuel as [|fuel IH]; intros c d o d' tr H;
    cbn [main_pix_loop] in H.
  - run_inv H. reflexivity.
  - run_inv H; tests; try reliable_absurd HT; eauto.
    + exfalso. eapply HN; eauto.
    + match goal with
      | Hf : for_each _ _ _ = _ |- _ =>
          apply main_resolutions_reliable in Hf as [Hf|Hf]; discriminate Hf
      end.
    + match goal with
      | Hf : enum_resolutions _ _ _ = _ |- _ =>
          apply enum_resolutions_loop_reliable in Hf as [(? & Hf)|Hf];
          discriminate Hf
      end.
Qed.

Lemma max_fps_loop_diverges :
  never_stops_scan T ->
  forall fuel c d o d' tr,
    max_fps_loop T fuel c d = (o, d', tr) -> o = OutOfFuel.
Proof.
  intros HN fuel.
  induction fuel as [|fuel IH]; intros c d o d' tr H;
    cbn [max_fps_loop] in H.
  - run_inv H. reflexivity.
  - run_inv H; tests; try reliable_absurd HT; eauto.
    all: exfalso; eapply HN; eauto; unfold scan_stop; auto.
Qed.

End NoCeiling.

Lemma outcome_of_run {A S E} (r : outcome A * S * E) (P : outcome A -> Prop) :
  (forall o s e, r = (o, s, e) -> P o) -> P (fst (fst r)).
Proof. destruct r as [[o s] e]. intros H. exact (H o s e eq_refl). Qed.

(** C2, as the code has it: the loops have no iteration ceiling and no
    overflow condition.  On a transport that never fails and whose
    presence register never answers the sentinel, no number of iterations
    lets the enumerator return or raise: it is still running when any
    given fuel is spent. *)
Theorem no_iteration_ceiling (T : Transport) (HT : reliable T)
    (fuel : nat) (d : Dev T) :
  (never_sentinel T RESOLUTION_INDEX_REG ->
   fst (fst (enum_resolutions T fuel d)) = OutOfFuel)
  /\ (never_sentinel T CTRL_ID_REG ->
      fst (fst (main_ctrl_loop T fuel 0 d)) = OutOfFuel)
  /\ (never_sentinel T PIXFORMAT_INDEX_REG ->
      fst (fst (main_pix_loop T fuel 0 d)) = OutOfFuel)
  /\ (never_stops_scan T ->
      fst (fst (max_fps_loop T fuel 0 d)) = OutOfFuel).
Proof.
  split; [|split; [|split]]; intros HN; apply outcome_of_run; intros o s e H.
  - eapply enum_resolutions_loop_diverges; eauto.
  - eapply main_ctrl_loop_diverges; eauto.
  - eapply main_pix_loop_diverges; eauto.
  - eapply max_fps_loop_diverges; eauto.
Qed.

Lemma endless_reliable : reliable Mock.endless.
Proof.
  split.
  - intros d a r. cbn. unfold Mock.endless_respond.
    destruct (r =? CTRL_ID_REG); discriminate.
  - intros d a r v. cbn. discriminate.
Qed.

Lemma endless_never_sentinel (r : Z) :
  r <> CTRL_ID_REG -> never_sentinel Mock.endless r.
Proof.
  intros Hr d v d'. cbn. unfold Mock.endless_respond.
  destruct (Z.eqb_spec r CTRL_ID_REG) as [E|_]; [contradiction|].
  intros [= <- _]. change 0xFF with (Z.ones 8).
  rewrite Z.land_ones by lia.
  pose proof (Z.mod_pos_bound (Mock.rf_get d r) (2 ^ 8) ltac:(lia)).
  unfold NO_DATA_AVAILABLE. lia.
Qed.

(** C2 on the endless device. *)
Lemma no_iteration_ceiling_witness :
  fst (fst (enum_resolutions Mock.endless 256 [])) = OutOfFuel.
Proof.
  apply (no_iteration_ceiling Mock.endless endless_reliable 256 []).
  apply endless_never_sentinel. discriminate.
Defined.

(** C2, against the wording of the specification: a device whose presence register
    always answers a valid index.  Whatever the number of iterations, the
    enumerator has neither returned nor raised an overflow; given 300 it
    has selected 300 indices, past any ceiling of 256. *)
Lemma endless_enumeration_never_overflows :
  never_sentinel Mock.endless RESOLUTION_INDEX_REG
  /\ (forall fuel, fst (fst (enum_resolutions Mock.endless fuel [])) = OutOfFuel)
  /\ (forall fuel e, fst (fst (enum_resolutions Mock.endless fuel [])) <> Raise e)
  /\ writes_of RESOLUTION_INDEX_REG (snd (enum_resolutions Mock.endless 300 []))
     = range 300.
Proof.
  assert (HN : never_sentinel Mock.endless RESOLUTION_INDEX_REG)
    by (apply endless_never_sentinel; discriminate).
  assert (HD : forall fuel,
             fst (fst (enum_resolutions Mock.endless fuel [])) = OutOfFuel).
  { intros fuel. apply outcome_of_run. intros o s e H.
    eapply enum_resolutions_loop_diverges; eauto using endless_reliable. }
  split; [exact HN|]. split; [exact HD|]. split.
  - intros fuel e. rewrite HD. discriminate.
  - vm_compute. reflexivity.
Qed.

(** ** C4: reset and settle before the bounds *)

(** The two paths that read a control's bounds.  In the control loop of
    the full probe, and so for the controls of every resolution it lists,
    each read of a bound register (maximum, minimum, default) comes after
    the write of 0 to the value register and the settle delay that follows
    it, both after the control was selected; this holds of every run,
    complete or not.  The max-fps scan of [enum_resolutions] does neither:
    it reads the maximum it returns with no write to the value register
    and no delay. *)
Theorem control_bounds_settled (T : Transport) (fuel : nat) (d : Dev T)
    (st : settle) :
  (forall ctrl_index,
      bounds_settled st (snd (main_ctrl_loop T fuel ctrl_index d)) = true)
  /\ (forall rs,
      bounds_settled st (snd (for_each rs (main_resolution T fuel) d)) = true)
  /\ (forall ctrl_index o d' tr,
      max_fps_loop T fuel ctrl_index d = (o, d', tr) ->
      sleeps_of tr = O /\ writes_of CTRL_VALUE_REG tr = []
      /\ forall m, o = Ok (Some m) -> reads_of CTRL_MAX_REG tr = [m]).
Proof.
  split; [|split].
  - intros c. destruct (main_ctrl_loop T fuel c d) as [[o d'] tr] eqn:H.
    eapply main_ctrl_loop_settled; eauto.
  - intros rs.
    destruct (for_each rs (main_resolution T fuel) d) as [[o d'] tr] eqn:H.
    apply main_resolutions_run in H as (_ & _ & _ & Hs). apply Hs.
  - intros c o d' tr H.
    pose proof (max_fps_loop_run T _ _ _ _ _ _ H) as (Hs & Hw & _).
    split; [exact Hs|]. split; [exact Hw|].
    intros m ->. apply max_fps_loop_ok in H. exact H.
Qed.

(** The two paths on a camera with three controls: its control loop keeps
    the contract, and the scan reads the maximum 60 of Framerate
    unsettled. *)
Lemma control_bounds_settled_witness :
  bounds_settled Selected
    (snd (main_ctrl_loop Mock.cameras 10 0 (Mock.fresh Mock.cam1))) = true
  /\ reads_of CTRL_MAX_REG
       (snd (max_fps_loop Mock.cameras 10 0 (Mock.fresh Mock.cam1))) = [60]
  /\ sleeps_of (snd (max_fps_loop Mock.cameras 10 0 (Mock.fresh Mock.cam1))) = O.
Proof.
  pose proof (control_bounds_settled Mock.cameras 10 (Mock.fresh Mock.cam1)
                Selected) as (Hloop & _ & Hscan).
  split; [apply Hloop|].
  pose (R := max_fps_loop Mock.cameras 10 0 (Mock.fresh Mock.cam1)).
  destruct (Hscan 0 (fst (fst R)) (snd (fst R)) (snd R)) as (Hs & _ & Hm).
  - vm_compute. reflexivity.
  - split; [|exact Hs]. apply Hm. vm_compute. reflexivity.
Defined.

(** C4: the full probe of a camera whose second control is Framerate.
    The maximum register is read by the max-fps scan of
    [enum_resolutions], with the value 60, before any write to the value
    register and before any settle delay, where the control loop of the
    same probe resets the value and waits before it reads that
    register. *)
Lemma max_fps_scan_reads_bound_unsettled :
  let tr := snd (full_info_probe Mock.cameras 10 (Mock.fresh Mock.cam1)) in
  bounds_settled Selected tr = false
  /\ exists pre post,
       tr = (pre ++ EvRead CTRL_MAX_REG 60 :: post)%list
       /\ writes_of CTRL_VALUE_REG pre = []
       /\ sleeps_of pre = O.
Proof.
  split; [vm_compute; reflexivity|].
  exists (firstn 35 (snd (full_info_probe Mock.cameras 10 (Mock.fresh Mock.cam1)))),
         (skipn 36 (snd (full_info_probe Mock.cameras 10 (Mock.fresh Mock.cam1)))).
  vm_compute. repeat split; reflexivity.
Qed.

(** ** C5: failure isolation in the device loop *)

Section Batch.

Variable T : Transport.
Variable F : FloatFormat.
Variable fuel : nat.
Variable args : Args.

Lemma probe_devices_app (pre post : list Device) : forall buses,
  probe_devices T F fuel args (pre ++ post) buses =
    match probe_devices T F fuel args pre buses with
    | (Ok _, buses1, evs1) =>
        match probe_devices T F fuel args post buses1 with
        | (o, buses2, evs2) => (o, buses2, (evs1 ++ evs2)%list)
        end
    | r => r
    end.
Proof.
  induction pre as [|dev pre IH]; intros buses; cbn [app probe_devices].
  - destruct (probe_devices T F fuel args post buses) as [[o b] evs].
    reflexivity.
  - destruct (buses (dev_bus dev)) as [camera|e].
    + destruct (probe_camera T F fuel args camera) as [[[[]|e|] camera'] evs];
        try reflexivity.
      rewrite IH.
      destruct (probe_devices T F fuel args pre _) as [[[[]|e|] b1] evs1];
        try reflexivity.
      destruct (probe_devices T F fuel args post b1) as [[o b2] evs2].
      now rewrite app_assoc.
    + rewrite IH.
      destruct (probe_devices T F fuel args pre buses) as [[[[]|e'|] b1] evs1];
        try reflexivity.
      destruct (probe_devices T F fuel args post b1) as [[o b2] evs2].
      reflexivity.
Qed.

(** A bus that does not open stays so through the batch. *)
Lemma probe_devices_closed_bus (devices : list Device) :
  forall buses o buses' evs bus e,
    probe_devices T F fuel args devices buses = (o, buses', evs) ->
    buses bus = inr e -> buses' bus = inr e.
Proof.
  induction devices as [|dev rest IH]; intros buses o buses' evs bus e H Hb;
    cbn [probe_devices] in H.
  - injection H as <- <- <-. exact Hb.
  - destruct (buses (dev_bus dev)) as [camera|e'] eqn:Hdev.
    + assert (Hset : forall c, set_bus T buses (dev_bus dev) c bus = inr e).
      { intros c. unfold set_bus.
        destruct (Z.eqb_spec bus (dev_bus dev)) as [->|_]; [congruence|exact Hb]. }
      destruct (probe_camera T F fuel args camera) as [[[[]|e1|] camera'] evs1].
      * destruct (probe_devices T F fuel args rest _) as [[o2 b2] evs2] eqn:Hrest.
        injection H as <- <- <-. eapply IH; eauto.
      * injection H as <- <- <-. apply Hset.
      * injection H as <- <- <-. apply Hset.
    + destruct (probe_devices T F fuel args rest buses) as [[o2 b2] evs2] eqn:Hrest.
      injection H as <- <- <-. eapply IH; eauto.
Qed.

(** A transport error in the middle of a probe ends the batch there. *)
Lemma probe_devices_raise (pre post : list Device) (dev : Device) :
  forall buses buses1 evs1 camera camera' e evs,
    probe_devices T F fuel args pre buses = (Ok tt, buses1, evs1) ->
    buses1 (dev_bus dev) = inl camera ->
    probe_camera T F fuel args camera = (Raise e, camera', evs) ->
    probe_devices T F fuel args (pre ++ dev :: post) buses =
      (Raise e, set_bus T buses1 (dev_bus dev) camera', (evs1 ++ evs)%list).
Proof.
  intros buses buses1 evs1 camera camera' e evs Hpre Hbus Hcam.
  rewrite probe_devices_app, Hpre. cbn [probe_devices].
  rewrite Hbus, Hcam. reflexivity.
Qed.

End Batch.

(** C5, as the code has it: a device whose bus fails to open is reported
    with an error line and skipped, and it is the only one affected: the
    devices before and after it are probed as in the batch without it. *)
Theorem open_failure_isolated (T : Transport) (F : FloatFormat) (fuel : nat)
    (args : Args) (pre post : list Device) (dev : Device)
    (buses buses1 buses2 : Buses T) (e : string) (o : outcome unit)
    (evs1 evs2 : list event)
    (Hopen : buses (dev_bus dev) = inr e)
    (Hpre : probe_devices T F fuel args pre buses = (Ok tt, buses1, evs1))
    (Hpost : probe_devices T F fuel args post buses1 = (o, buses2, evs2)) :
  probe_devices T F fuel args (pre ++ dev :: post) buses =
    (o, buses2,
     (evs1 ++
      EvPrint (log_line ("Failed to open I2C bus " ++ fmt_d (dev_bus dev)
                           ++ ": " ++ e) ERROR) :: evs2)%list)
  /\ probe_devices T F fuel args (pre ++ post) buses =
       (o, buses2, (evs1 ++ evs2)%list).
Proof.
  pose proof (probe_devices_closed_bus T F fuel args pre _ _ _ _ _ e Hpre Hopen)
    as Hopen1.
  rewrite !probe_devices_app, Hpre. cbn [probe_devices].
  rewrite Hopen1, Hpost. split; reflexivity.
Qed.

(** C5 on three mapped devices of which the second does not open: the
    first and the third are reported in full, around the error line. *)
Lemma open_failure_isolated_witness :
  let buses := Mock.machine (Some Mock.cam1) None (Some Mock.cam3) in
  let run := probe_devices Mock.cameras Mock.float_format 10 Mock.no_args in
  let d1 := {| dev_bus := 1; dev_name := "video0" |} in
  let d2 := {| dev_bus := 2; dev_name := "video1" |} in
  let d3 := {| dev_bus := 3; dev_name := "video2" |} in
  prints_of (snd (run ([d1] ++ d2 :: [d3])%list buses)) =
    (prints_of (snd (run [d1] buses)) ++
     "[ERROR]: Failed to open I2C bus 2: [Errno 2] No such file or directory"
       :: prints_of (snd (run [d3] buses)))%list
  /\ fst (fst (run ([d1] ++ d2 :: [d3])%list buses)) = Ok tt.
Proof.
  intros buses run d1 d2 d3.
  destruct (open_failure_isolated Mock.cameras Mock.float_format 10
              Mock.no_args [d1] [d3] d2 buses
              (snd (fst (run [d1] buses)))
              (snd (fst (run [d3] (snd (fst (run [d1] buses))))))
              "[Errno 2] No such file or directory" (Ok tt)
              (snd (run [d1] buses)) (snd (run [d3] buses)))
    as [H _].
  - reflexivity.
  - vm_compute. reflexivity.
  - vm_compute. reflexivity.
  - subst run. cbv beta in *. rewrite H. cbn [snd fst].
    rewrite prints_of_app. cbn [prints_of]. split; reflexivity.
Defined.

(** C5, against the wording of the specification: three mapped devices, the second of
    which fails on a register read in the middle of its probe.  The error
    is not caught by the device loop: the run ends with it, and the third
    device, which reports in full when probed without the second, is
    never probed. *)
Lemma transport_error_ends_batch :
  let run := main Mock.cameras Mock.float_format 10 (Namespace Mock.no_args)
               (Some Mock.mapping3) in
  let failing := run (Mock.machine (Some Mock.cam1) (Some Mock.cam_broken)
                        (Some Mock.cam3)) in
  let without := run (Mock.machine (Some Mock.cam1) None (Some Mock.cam3)) in
  fst (fst failing) = Raise TransportError
  /\ existsb (String.eqb "[INFO]: Device ID: 0x30") (prints_of (snd failing)) = true
  /\ existsb (String.eqb "[INFO]: Device ID: 0x31") (prints_of (snd failing)) = true
  /\ existsb (String.eqb "[INFO]: Device ID: 0x33") (prints_of (snd failing)) = false
  /\ reads_of DEVICE_ID_REG (snd failing) = [0x30; 0x31]
  /\ fst (fst without) = Ok tt
  /\ existsb (String.eqb "[INFO]: Device ID: 0x33") (prints_of (snd without)) = true.
Proof. vm_compute. repeat split; reflexivity. Qed.

(** ** C7: the software version string *)

Lemma append_assoc (a b c : string) : (a ++ b) ++ c = a ++ (b ++ c).
Proof. induction a as [|x a IH]; simpl; [reflexivity | now rewrite IH]. Qed.

Lemma string_of_codes_length (codes : list Z) :
  String.length (string_of_codes codes) = List.length codes.
Proof. induction codes as [|c codes IH]; simpl; auto. Qed.

Section SoftVersion.

Variable T : Transport.
Hypothesis HT : reliable T.
Hypothesis HU : unsigned T.

Lemma soft_version_loop_run (indices : list Z) : forall version d o d' tr,
  soft_version_loop T indices version d = (o, d', tr) ->
  exists codes,
    List.length codes = List.length indices
    /\ o = Ok (version ++ string_of_codes (filter (fun c => c <=? 255) codes))
    /\ tr = soft_version_trace indices codes.
Proof.
  induction indices as [|i indices IH]; intros version d o d' tr H;
    cbn [soft_version_loop] in H.
  - run_inv H. exists []. cbn. split; [reflexivity|]. split; [|reflexivity].
    f_equal. induction version as [|x v IHv]; simpl; congruence.
  - run_inv H; try reliable_absurd HT; tests;
      try match goal with
      | Hrd : read_16_32 _ _ _ _ = Some (?a, _), Hneg : ?a < 0 |- _ =>
          pose proof (HU _ _ _ _ _ Hrd); lia
      end;
      apply IH in H as (codes & Hlen & -> & ->);
      match goal with
      | Hrd : read_16_32 _ _ _ _ = Some (?a, _) |- _ => exists (a :: codes)
      end;
      cbn [List.length filter soft_version_trace app].
    + (* a code above 255: skipped *)
      replace (a <=? 255) with false by (symmetry; apply Z.leb_gt; lia).
      auto.
    + (* a character *)
      replace (a <=? 255) with true by (symmetry; apply Z.leb_le; lia).
      cbn [string_of_codes]. rewrite append_assoc. auto.
Qed.

End SoftVersion.

Lemma filter_split_length (codes : list Z) :
  List.length (filter (fun c => (c <=? 255)%Z) codes) =
    (List.length codes - List.length (filter (fun c => (255 <? c)%Z) codes))%nat.
Proof.
  assert (H : (List.length (filter (fun c => (c <=? 255)%Z) codes)
               + List.length (filter (fun c => (255 <? c)%Z) codes))%nat
              = List.length codes).
  { induction codes as [|c codes IH]; [reflexivity|]. cbn [filter].
    rewrite (Z.ltb_antisym c 255).
    destruct (c <=? 255); cbn [negb List.length]; lia. }
  lia.
Qed.

(** C7: a length that is the sentinel or above 255 gives "None".
    Otherwise, on a transport that does not fail and reads unsigned
    values, the decode selects each index of [range(length)] in turn,
    reads its code, and returns the characters of the codes that are at
    most 255: the string is shorter than the declared length by the
    number of codes above 255. *)
Theorem software_version_decode (T : Transport) (d d1 : Dev T) (n : Z)
    (Hlen : read_16_32 T d i2c_address SOFT_VERSION_LEN_REG = Some (n, d1)) :
  ((n = NO_DATA_AVAILABLE \/ 255 < n) ->
   get_software_fw_version T d =
     (Ok "None", d1, [EvRead SOFT_VERSION_LEN_REG n]))
  /\ (n <> NO_DATA_AVAILABLE -> n <= 255 -> reliable T -> unsigned T ->
      exists codes d',
        List.length codes = Z.to_nat n
        /\ get_software_fw_version T d =
             (Ok (string_of_codes (filter (fun c => (c <=? 255)%Z) codes)), d',
              EvRead SOFT_VERSION_LEN_REG n
                :: soft_version_trace (range n) codes)
        /\ String.length (string_of_codes (filter (fun c => (c <=? 255)%Z) codes))
           = (Z.to_nat n - List.length (filter (fun c => (255 <? c)%Z) codes))%nat).
Proof.
  split.
  - intros Habsent. unfold get_software_fw_version, bind, readReg.
    rewrite Hlen.
    replace ((n =? NO_DATA_AVAILABLE) || (n >? 255)) with true.
    + reflexivity.
    + symmetry. apply orb_true_iff. rewrite Z.gtb_ltb, Z.eqb_eq, Z.ltb_lt.
      exact Habsent.
  - intros Hns Hle HT HU.
    destruct (soft_version_loop T (range n) "" d1) as [[o d'] tr] eqn:Hrun.
    pose proof (soft_version_loop_run T HT HU _ _ _ _ _ _ Hrun)
      as (codes & Hcodes & -> & ->).
    exists codes, d'. unfold range in Hcodes at 1.
    rewrite length_map, length_seq in Hcodes.
    split; [exact Hcodes|]. split.
    + unfold get_software_fw_version, bind, readReg. rewrite Hlen.
      replace ((n =? NO_DATA_AVAILABLE) || (n >? 255)) with false.
      * rewrite Hrun. reflexivity.
      * symmetry. apply orb_false_iff. rewrite Z.gtb_ltb, Z.eqb_neq, Z.ltb_ge.
        auto.
    + rewrite string_of_codes_length, filter_split_length, Hcodes. reflexivity.
Qed.

Lemma nthZ_Forall {A} (P : A -> Prop) (l : list A) (i : Z) (default : A) :
  Forall P l -> P default -> P (Mock.nthZ l i default).
Proof.
  intros Hl Hd. unfold Mock.nthZ. destruct (i <? 0); [exact Hd|].
  destruct (nth_in_or_default (Z.to_nat i) l default) as [Hin | ->]; auto.
  rewrite Forall_forall in Hl. auto.
Qed.

Lemma camera_device_reliable (c : Mock.camera) :
  Mock.broken c = [] -> reliable (Mock.camera_device c).
Proof.
  intros Hb. split.
  - intros d a r. cbn. unfold Mock.respond. rewrite Hb. cbn. discriminate.
  - intros d a r v. cbn. discriminate.
Qed.

Lemma presence_unsigned {A} (l : list A) (i : Z) : 0 <= Mock.presence l i.
Proof.
  unfold Mock.presence. destruct (0 <=? i) eqn:E; cbn [andb].
  - destruct (i <? _); [apply Z.leb_le; exact E | unfold NO_DATA_AVAILABLE; lia].
  - unfold NO_DATA_AVAILABLE; lia.
Qed.

Lemma cam1_unsigned : unsigned (Mock.camera_device Mock.cam1).
Proof.
  intros d a r v d'. cbn. unfold Mock.respond. cbn [Mock.broken Mock.cam1 Zmem existsb].
  intros [= <- _]. unfold Mock.value.
  repeat match goal with
  | |- 0 <= (if ?c then _ else _) => destruct c
  end;
  try apply presence_unsigned; cbn [Mock.cam1 Mock.device_id Mock.device_version
    Mock.sensor_id Mock.isp_fw_version Mock.soft_version Mock.formats
    Mock.resolutions Mock.controls]; try (unfold NO_DATA_AVAILABLE; lia);
  try (rewrite <- Nat2Z.inj_0; apply Nat2Z.is_nonneg).
  all: match goal with
       | |- 0 <= ?f (Mock.nthZ ?l ?i ?dflt) =>
           apply (nthZ_Forall (fun x => 0 <= f x) l i dflt)
       | |- 0 <= ?f (?g (Mock.nthZ ?l ?i ?dflt)) =>
           apply (nthZ_Forall (fun x => 0 <= f (g x)) l i dflt)
       | |- 0 <= ?f (?g (?h (Mock.nthZ ?l ?i ?dflt))) =>
           apply (nthZ_Forall (fun x => 0 <= f (g (h x))) l i dflt)
       | |- 0 <= Mock.nthZ ?l ?i ?dflt =>
           apply (nthZ_Forall (fun x => 0 <= x) l i dflt)
       end; repeat constructor; cbn; lia.
Qed.

(** C7 on a camera that declares five codes, the fourth of which is 300:
    the string has the four other characters. *)
Lemma software_version_decode_witness :
  exists d',
    get_software_fw_version (Mock.camera_device Mock.cam1) [] =
      (Ok "v1.2", d',
       EvRead SOFT_VERSION_LEN_REG 5
         :: soft_version_trace (range 5) [118; 49; 46; 300; 50])
    /\ String.length "v1.2" = 4%nat.
Proof.
  destruct (software_version_decode (Mock.camera_device Mock.cam1) [] [] 5
              eq_refl) as [_ H].
  destruct H as (codes & d' & Hlen & Hrun & Hs).
  - discriminate.
  - lia.
  - apply camera_device_reliable. reflexivity.
  - exact cam1_unsigned.
  - exists d'. rewrite Hrun. split; [|reflexivity].
    assert (E : get_software_fw_version (Mock.camera_device Mock.cam1) [] =
                (Ok "v1.2",
                 snd (fst (get_software_fw_version
                             (Mock.camera_device Mock.cam1) [])),
                 EvRead SOFT_VERSION_LEN_REG 5
                   :: soft_version_trace (range 5) [118; 49; 46; 300; 50]))
      by (vm_compute; reflexivity).
    rewrite Hrun in E. cbn [fst snd] in E. exact E.
Defined.

(** ** C8: which reads are compared with the sentinel *)


Section Lines.

Variable T : Transport.



End Lines.




(** ** C9: the max-fps scan *)

Lemma first_stop_unique (P : Z -> Prop) (vs : list Z) :
  forall v rest vs' v' rest',
    (vs ++ v :: rest)%list = (vs' ++ v' :: rest')%list ->
    Forall (fun x => ~ P x) vs -> P v ->
    Forall (fun x => ~ P x) vs' -> P v' ->
    vs = vs' /\ v = v' /\ rest = rest'.
Proof.
  induction vs as [|a vs IH]; intros v rest [|b vs'] v' rest' H Hvs Hv Hvs' Hv';
    cbn [app] in H.
  - injection H as -> ->. auto.
  - injection H as -> _. inversion Hvs'; subst. contradiction.
  - injection H as -> _. inversion Hvs; subst. contradiction.
  - injection H as -> H. inversion Hvs; inversion Hvs'; subst.
    apply IH in H as (-> & -> & ->); auto.
Qed.

Lemma scan_continue_Forall (vs : list Z) :
  Forall (fun x => x <> NO_DATA_AVAILABLE /\ x <> FRAMERATE_ID) vs ->
  Forall (fun x => ~ scan_stop x) vs.
Proof.
  apply Forall_impl. intros x [H1 H2] [H|H]; contradiction.
Qed.

(** The operations of a scan that returns. *)
Lemma max_fps_loop_trace (T : Transport) fuel : forall c d fps d' tr,
  max_fps_loop T fuel c d = (Ok fps, d', tr) ->
  exists ids, Forall passed ids /\ tr = scan_ops c ids fps.
Proof.
  induction fuel as [|fuel IH]; intros c d fps d' tr H;
    cbn [max_fps_loop] in H.
  - run_inv H.
  - run_inv H; tests; subst.
    + exists []. split; [constructor|]. reflexivity.
    + exists []. split; [constructor|]. reflexivity.
    + apply IH in H as (ids & Hids & ->).
      exists (a :: ids). split; [|reflexivity].
      constructor; [split; assumption | exact Hids].
Qed.

(** The operations of a run of the resolution loop that returns. *)
Lemma enum_resolutions_loop_trace (T : Transport) fuel :
  forall i acc d rs d' tr,
    enum_resolutions_loop T fuel i acc d = (Ok rs, d', tr) ->
    exists es : list entry,
      rs = (acc ++ map fst es)%list
      /\ map index (map fst es) = zrange i (List.length es)
      /\ Forall entry_found es
      /\ tr = (flat_map entry_ops es
               ++ [ EvWrite RESOLUTION_INDEX_REG (i + Z.of_nat (List.length es));
                    EvRead RESOLUTION_INDEX_REG NO_DATA_AVAILABLE ])%list.
Proof.
  induction fuel as [|fuel IH]; intros i acc d rs d' tr H;
    cbn [enum_resolutions_loop] in H.
  - run_inv H.
  - run_inv H; tests; subst.
    + exists []. cbn [map flat_map List.length app].
      rewrite app_nil_r, Z.add_0_r. repeat split; constructor.
    + match goal with
      | Hs : max_fps_loop _ _ _ _ = _ |- _ =>
          apply max_fps_loop_trace in Hs as (ids & Hids & ->)
      end.
      apply IH in H as (es & -> & Hidx & Hes & ->).
      match goal with
      | |- context [ {| index := i; width := ?w; height := ?h;
                        max_fps := ?f |} ] =>
          exists (({| index := i; width := w; height := h; max_fps := f |},
                   (a, ids)) :: es)
      end.
      cbn [map flat_map List.length fst snd entry_ops index width height
             max_fps].
      rewrite zrange_S, Hidx, <- !app_assoc. cbn [app].
      rewrite Nat2Z.inj_succ.
      replace (i + 1 + Z.of_nat (List.length es))
        with (i + Z.succ (Z.of_nat (List.length es))) by lia.
      repeat split; try reflexivity.
      constructor; [split; assumption | exact Hes].
Qed.

(** C9: the scan made for a resolution entry starts at control 0, selects
    the controls in turn and stops at the first id that is Framerate or the
    sentinel.  At Framerate it reads the control-max register, and that
    value is [max_fps]; at the sentinel [max_fps] is [None].  The scan
    writes nothing to the value register and takes no settle delay, and
    neither does [enum_resolutions] as a whole, whose descriptors hold the
    maxima as read.  A run of [enum_resolutions] that returns is, entry by
    entry, the selection of the resolution, the reads of the index, the
    width and the height, the write of control index 0 and a scan from
    control 0 whose result is the [max_fps] of that very entry, and then
    the selection that reads the sentinel. *)
Theorem max_fps_scan (T : Transport) (fuel : nat) (d : Dev T) :
  (forall o d' tr,
      max_fps_loop T fuel 0 d = (o, d', tr) ->
      sleeps_of tr = O /\ writes_of CTRL_VALUE_REG tr = [] /\
      forall vs v rest,
        reads_of CTRL_ID_REG tr = (vs ++ v :: rest)%list ->
        Forall (fun x => x <> NO_DATA_AVAILABLE /\ x <> FRAMERATE_ID) vs ->
        (v = FRAMERATE_ID ->
           rest = []
           /\ writes_of CTRL_INDEX_REG tr = range (Z.of_nat (S (List.length vs)))
           /\ ((exists m, o = Ok (Some m) /\ reads_of CTRL_MAX_REG tr = [m])
               \/ (o = Raise TransportError /\ reads_of CTRL_MAX_REG tr = [])))
        /\ (v = NO_DATA_AVAILABLE ->
           rest = []
           /\ writes_of CTRL_INDEX_REG tr = range (Z.of_nat (S (List.length vs)))
           /\ o = Ok None /\ reads_of CTRL_MAX_REG tr = []))
  /\ (forall rs d' tr,
      enum_resolutions T fuel d = (Ok rs, d', tr) ->
      sleeps_of tr = O /\ writes_of CTRL_VALUE_REG tr = []
      /\ fps_values rs = reads_of CTRL_MAX_REG tr)
  /\ (forall rs d' tr,
      enum_resolutions T fuel d = (Ok rs, d', tr) ->
      exists es : list entry,
        map fst es = rs
        /\ map index rs = range (Z.of_nat (List.length rs))
        /\ Forall entry_found es
        /\ tr = (flat_map entry_ops es
                 ++ [ EvWrite RESOLUTION_INDEX_REG (Z.of_nat (List.length rs));
                      EvRead RESOLUTION_INDEX_REG NO_DATA_AVAILABLE ])%list).
Proof.
  split; [|split].
  - intros o d' tr H.
    apply max_fps_loop_run in H as (Hs & Hw & vs' & Hvs' & Hcases).
    split; [exact Hs|]. split; [exact Hw|].
    intros vs v rest Hreads Hvs.
    apply scan_continue_Forall in Hvs, Hvs'.
    assert (Hsent : scan_stop NO_DATA_AVAILABLE) by (left; reflexivity).
    assert (Hfps : scan_stop FRAMERATE_ID) by (right; reflexivity).
    split; intros ->.
    + destruct Hcases as [(-> & Hr & Hi & Hm)
                         | [(m & -> & Hr & Hi & Hm)
                           | (Ho & [Hr | (Hr & -> & Hi)] & Hm)]];
        rewrite Hreads in Hr.
      * apply first_stop_unique with (P := scan_stop) in Hr
          as (_ & Hv & _); auto. discriminate Hv.
      * apply first_stop_unique with (P := scan_stop) in Hr
          as (-> & _ & ->); auto.
        rewrite Hi, zrange_0. repeat split; auto. left. exists m. auto.
      * exfalso. rewrite Forall_forall in Hvs'.
        apply (Hvs' FRAMERATE_ID); auto. rewrite <- Hr. apply in_elt.
      * apply first_stop_unique with (P := scan_stop) in Hr
          as (-> & _ & ->); auto.
        rewrite Hi, zrange_0. repeat split; auto.
    + destruct Hcases as [(-> & Hr & Hi & Hm)
                         | [(m & -> & Hr & Hi & Hm)
                           | (Ho & [Hr | (Hr & -> & Hi)] & Hm)]];
        rewrite Hreads in Hr.
      * apply first_stop_unique with (P := scan_stop) in Hr
          as (-> & _ & ->); auto.
        rewrite Hi, zrange_0. repeat split; auto.
      * apply first_stop_unique with (P := scan_stop) in Hr
          as (_ & Hv & _); auto. discriminate Hv.
      * exfalso. rewrite Forall_forall in Hvs'.
        apply (Hvs' NO_DATA_AVAILABLE); auto. rewrite <- Hr. apply in_elt.
      * apply first_stop_unique with (P := scan_stop) in Hr
          as (_ & Hv & _); auto. discriminate Hv.
  - intros rs d' tr H.
    apply enum_resolutions_loop_run in H as (Hs & Hw & H).
    destruct H as [(rs' & vs & [= ->] & _ & _ & _ & _ & _ & _ & _ & Hf & _)
                  | ([Ho|Ho] & _)]; try discriminate Ho.
    cbn [app]. auto.
  - intros rs d' tr H. unfold enum_resolutions in H.
    apply enum_resolutions_loop_trace in H as (es & Hrs & Hidx & Hes & ->).
    cbn [app] in Hrs. subst rs. exists es.
    rewrite length_map, Hidx, zrange_0, Z.add_0_l. auto.
Qed.

(** C9 on a camera whose second control is Framerate with maximum 60, on
    one that has no Framerate control, and on the enumeration of the two
    resolutions of the first: each entry has a scan of its own from
    control 0, past Exposure to Framerate. *)
Lemma max_fps_scan_witness :
  fst (fst (max_fps_loop Mock.cameras 10 0 (Mock.fresh Mock.cam1))) = Ok (Some 60)
  /\ reads_of CTRL_MAX_REG
       (snd (max_fps_loop Mock.cameras 10 0 (Mock.fresh Mock.cam1))) = [60]
  /\ fst (fst (max_fps_loop Mock.cameras 10 0 (Mock.fresh Mock.cam3))) = Ok None
  /\ exists es : list entry,
       map fst es
       = [ {| index := 0; width := 1920; height := 1080; max_fps := Some 60 |};
           {| index := 1; width := 1280; height := 720; max_fps := Some 60 |} ]
       /\ snd (enum_resolutions Mock.cameras 10 (Mock.fresh Mock.cam1))
          = (flat_map entry_ops es
             ++ [ EvWrite RESOLUTION_INDEX_REG 2;
                  EvRead RESOLUTION_INDEX_REG NO_DATA_AVAILABLE ])%list.
Proof.
  rewrite <- !and_assoc. split.
  2: {
    pose proof (max_fps_scan Mock.cameras 10 (Mock.fresh Mock.cam1))
      as (_ & _ & He).
    pose (R := enum_resolutions Mock.cameras 10 (Mock.fresh Mock.cam1)).
    destruct (He [ {| index := 0; width := 1920; height := 1080;
                      max_fps := Some 60 |};
                   {| index := 1; width := 1280; height := 720;
                      max_fps := Some 60 |} ]
                 (snd (fst R)) (snd R))
      as (es & Hrs & _ & _ & Htr); [vm_compute; reflexivity|].
    exists es. split; [exact Hrs | exact Htr]. }
  rewrite and_assoc.
  pose proof (max_fps_scan Mock.cameras 10 (Mock.fresh Mock.cam1)) as [H1 _].
  pose proof (max_fps_scan Mock.cameras 10 (Mock.fresh Mock.cam3)) as [H3 _].
  pose (R1 := max_fps_loop Mock.cameras 10 0 (Mock.fresh Mock.cam1)).
  pose (R3 := max_fps_loop Mock.cameras 10 0 (Mock.fresh Mock.cam3)).
  destruct (H1 (fst (fst R1)) (snd (fst R1)) (snd R1)) as (_ & _ & H1');
    [vm_compute; reflexivity|].
  destruct (H3 (fst (fst R3)) (snd (fst R3)) (snd R3)) as (_ & _ & H3');
    [vm_compute; reflexivity|].
  destruct (H1' [0x980911] FRAMERATE_ID []) as [Hf _].
  { vm_compute. reflexivity. }
  { repeat constructor; discriminate. }
  destruct (H3' [0x980900] NO_DATA_AVAILABLE []) as [_ Hn].
  { vm_compute. reflexivity. }
  { repeat constructor; discriminate. }
  destruct (Hf eq_refl) as (_ & _ & [(m & Ho & Hm) | (Ho & _)]).
  - destruct (Hn eq_refl) as (_ & _ & Hnone & _).
    unfold R1, R3 in *. rewrite Ho, Hm, Hnone.
    assert (E : reads_of CTRL_MAX_REG
                  (snd (max_fps_loop Mock.cameras 10 0 (Mock.fresh Mock.cam1)))
                = [60]) by (vm_compute; reflexivity).
    rewrite Hm in E. injection E as ->. auto.
  - exfalso. unfold R1 in Ho.
    assert (E : fst (fst (max_fps_loop Mock.cameras 10 0 (Mock.fresh Mock.cam1)))
                = Ok (Some 60)) by (vm_compute; reflexivity).
    rewrite Ho in E. discriminate E.
Defined.

(** ** C10: one pixel format for the whole listing *)

Lemma reads_of_prints reg lines : reads_of reg (map EvPrint lines) = [].
Proof. induction lines; cbn; auto. Qed.

Lemma writes_of_prints reg lines : writes_of reg (map EvPrint lines) = [].
Proof. induction lines; cbn; auto. Qed.

Lemma prints_of_prints lines : prints_of (map EvPrint lines) = lines.
Proof. induction lines; cbn; congruence. Qed.

Section ListFormats.

Variable T : Transport.
Variable F : FloatFormat.

Lemma list_formats_row_run extended fourcc pix_name (r : resolution) d :
  list_formats_row T F extended fourcc pix_name r d =
    (Ok tt, d, map EvPrint (row_lines F extended fourcc pix_name r)).
Proof.
  unfold list_formats_row, row_lines, bind, print, ret.
  destruct r as [i w h [v|]]; cbn [index width height max_fps truthy];
    destruct extended; try reflexivity.
  destruct (v =? 0); reflexivity.
Qed.

Lemma list_formats_rows_run extended fourcc pix_name (rs : list resolution) :
  forall d o d' tr,
    for_each rs (list_formats_row T F extended fourcc pix_name) d = (o, d', tr) ->
    o = Ok tt /\
    tr = map EvPrint (flat_map (row_lines F extended fourcc pix_name) rs).
Proof.
  induction rs as [|r rs IH]; intros d o d' tr H; cbn [for_each] in H.
  - run_inv H. auto.
  - unfold bind in H. rewrite list_formats_row_run in H.
    destruct (for_each rs _ d) as [[o2 d2] t2] eqn:Hrest.
    injection H as <- <- <-. apply IH in Hrest as [-> ->].
    cbn [flat_map]. rewrite map_app. auto.
Qed.

End ListFormats.

(** What every run of [list_formats] shows of the pixel-format
    registers. *)
Lemma list_formats_observed (T : Transport) (F : FloatFormat)
    (fuel : nat) (extended : bool) (d d' : Dev T) (o : outcome unit)
    (tr : list event)
    (H : list_formats T F fuel extended d = (o, d', tr)) :
  reads_of PIXFORMAT_INDEX_REG tr = []
  /\ (writes_of PIXFORMAT_INDEX_REG tr = [0] \/ writes_of PIXFORMAT_INDEX_REG tr = [])
  /\ (List.length (reads_of PIXFORMAT_TYPE_REG tr) <= 1)%nat
  /\ (List.length (reads_of PIXFORMAT_ORDER_REG tr) <= 1)%nat
  /\ (o = Ok tt ->
      exists pix_type pix_order rs,
        writes_of PIXFORMAT_INDEX_REG tr = [0]
        /\ reads_of PIXFORMAT_TYPE_REG tr = [pix_type]
        /\ reads_of PIXFORMAT_ORDER_REG tr = [pix_order]
        /\ map index rs = range (Z.of_nat (List.length rs))
        /\ prints_of tr =
             "ioctl: VIDIOC_ENUM_FMT" :: ("        Type: Video Capture" ++ nl)
               :: flat_map
                    (row_lines F extended
                       (list_formats_fourcc pix_type pix_order)
                       (dict_get pix_type_map pix_type "Unknown")) rs).
Proof.
  unfold list_formats in H. run_inv H;
    repeat match goal with
    | He : enum_resolutions _ _ _ = _ |- _ =>
        unfold enum_resolutions in He;
        let Hq := fresh "Hq" in let Hr := fresh "Hregs" in
        pose proof (enum_resolutions_loop_regs _ _ _ _ _ _ _ _ He) as [Hr Hq];
        pose proof (only_regs_reads _ _ PIXFORMAT_INDEX_REG Hr eq_refl);
        pose proof (only_regs_writes _ _ PIXFORMAT_INDEX_REG Hr eq_refl);
        pose proof (only_regs_reads _ _ PIXFORMAT_TYPE_REG Hr eq_refl);
        pose proof (only_regs_reads _ _ PIXFORMAT_ORDER_REG Hr eq_refl);
        apply enum_resolutions_loop_run in He as (_ & _ & He);
        clear Hr
    | Hf : for_each _ (list_formats_row _ _ _ _ _) _ = _ |- _ =>
        apply list_formats_rows_run in Hf as [? ->]
    end;
    try discriminate;
    obs; rewrite ?reads_of_prints, ?writes_of_prints, ?prints_of_prints;
    repeat match goal with
    | Hx : reads_of _ _ = [] |- _ => rewrite Hx
    | Hx : writes_of _ _ = [] |- _ => rewrite Hx
    | Hx : prints_of _ = [] |- _ => rewrite Hx
    end;
    cbn [app List.length];
    (split; [reflexivity|]); (split; [auto|]);
    (split; [lia|]); (split; [lia|]);
    intros Ho; try discriminate Ho.
  destruct Hm as [(rs & vs & [= ->] & _ & _ & _ & _ & Hidx & _) | ([Hx|Hx] & _)];
    try discriminate Hx.
  eexists _, _, rs. cbn [app]. rewrite Hidx, zrange_0.
  repeat split; reflexivity.
Qed.

Lemma list_formats_rows_state (T : Transport) (F : FloatFormat)
    extended fourcc pix_name (rs : list resolution) :
  forall d o d' tr,
    for_each rs (list_formats_row T F extended fourcc pix_name) d = (o, d', tr) ->
    d = d'.
Proof.
  induction rs as [|r rs IH]; intros d o d' tr H; cbn [for_each] in H.
  - run_inv H. reflexivity.
  - unfold bind in H. rewrite list_formats_row_run in H.
    destruct (for_each rs _ d) as [[o2 d2] t2] eqn:Hrest.
    injection H as _ <- _. eapply IH; eauto.
Qed.

(** The shape of a run of [list_formats] that returns: the write of
    format index 0, the read of the type, the read of the order, a run of
    [enum_resolutions], and the lines. *)
Lemma list_formats_ok_run (T : Transport) (F : FloatFormat)
    (fuel : nat) (extended : bool) (d d' : Dev T) (tr : list event) :
  list_formats T F fuel extended d = (Ok tt, d', tr) ->
  exists pix_type pix_order rs d1 enum,
    enum_resolutions T fuel d1 = (Ok rs, d', enum)
    /\ tr = EvWrite PIXFORMAT_INDEX_REG 0
              :: EvRead PIXFORMAT_TYPE_REG pix_type
              :: EvRead PIXFORMAT_ORDER_REG pix_order
              :: (enum ++
                  map EvPrint
                    ("ioctl: VIDIOC_ENUM_FMT"
                       :: ("        Type: Video Capture" ++ nl)%string
                       :: flat_map
                            (row_lines F extended
                               (list_formats_fourcc pix_type pix_order)
                               (dict_get pix_type_map pix_type "Unknown"))
                            rs))%list.
Proof.
  unfold list_formats. intros H. run_inv H; try discriminate.
  pose proof (list_formats_rows_state _ _ _ _ _ _ _ _ _ _ H) as <-.
  apply list_formats_rows_run in H as [_ Hrows]. subst.
  eexists _, _, _, _, _. split; [eassumption|]. reflexivity.
Qed.

Lemma list_formats_first (T : Transport) (F : FloatFormat)
    (fuel : nat) (extended : bool) (d d' : Dev T) (o : outcome unit)
    (tr : list event) :
  list_formats T F fuel extended d = (o, d', tr) ->
  tr = [] \/ exists rest, tr = EvWrite PIXFORMAT_INDEX_REG 0 :: rest.
Proof.
  unfold list_formats. intros H.
  apply bind_inv in H
    as [(a & d1 & t1 & t2 & Hm & H & ->) | [(e & Hm & Ho) | (Hm & Ho)]];
    run_inv Hm; subst;
    first [ left; reflexivity | right; eexists; reflexivity ].
Qed.

(** C10: [list_formats] begins by writing pixel-format index 0; it writes
    that register at no other time and never reads it back.  The next two
    operations are the read of the type and the read of the order, the
    only ones of the run; what follows is a run of [enum_resolutions],
    which touches no pixel-format register, and the lines.  When it
    returns, every resolution that [enum_resolutions] found is listed
    under the FOURCC and the name derived from that one pair, however
    many formats the device has. *)
Theorem list_formats_single_format (T : Transport) (F : FloatFormat)
    (fuel : nat) (extended : bool) (d d' : Dev T) (o : outcome unit)
    (tr : list event)
    (H : list_formats T F fuel extended d = (o, d', tr)) :
  reads_of PIXFORMAT_INDEX_REG tr = []
  /\ (writes_of PIXFORMAT_INDEX_REG tr = [0] \/ writes_of PIXFORMAT_INDEX_REG tr = [])
  /\ (List.length (reads_of PIXFORMAT_TYPE_REG tr) <= 1)%nat
  /\ (List.length (reads_of PIXFORMAT_ORDER_REG tr) <= 1)%nat
  /\ (tr = [] \/ exists rest, tr = EvWrite PIXFORMAT_INDEX_REG 0 :: rest)
  /\ (o = Ok tt ->
      exists pix_type pix_order rs d1 enum,
        enum_resolutions T fuel d1 = (Ok rs, d', enum)
        /\ only_regs resolution_regs enum = true
        /\ tr = EvWrite PIXFORMAT_INDEX_REG 0
                  :: EvRead PIXFORMAT_TYPE_REG pix_type
                  :: EvRead PIXFORMAT_ORDER_REG pix_order
                  :: (enum ++
                      map EvPrint
                        ("ioctl: VIDIOC_ENUM_FMT"
                           :: ("        Type: Video Capture" ++ nl)%string
                           :: flat_map
                                (row_lines F extended
                                   (list_formats_fourcc pix_type pix_order)
                                   (dict_get pix_type_map pix_type "Unknown"))
                                rs))%list
        /\ writes_of PIXFORMAT_INDEX_REG tr = [0]
        /\ reads_of PIXFORMAT_TYPE_REG tr = [pix_type]
        /\ reads_of PIXFORMAT_ORDER_REG tr = [pix_order]
        /\ map index rs = range (Z.of_nat (List.length rs))
        /\ prints_of tr =
             "ioctl: VIDIOC_ENUM_FMT" :: ("        Type: Video Capture" ++ nl)
               :: flat_map
                    (row_lines F extended
                       (list_formats_fourcc pix_type pix_order)
                       (dict_get pix_type_map pix_type "Unknown")) rs).
Proof.
  destruct (list_formats_observed T F fuel extended d d' o tr H)
    as (Hri & Hwi & Hty & Hor & _).
  split; [exact Hri|]. split; [exact Hwi|]. split; [exact Hty|].
  split; [exact Hor|]. split; [eapply list_formats_first; eauto|].
  intros ->.
  destruct (list_formats_ok_run T F fuel extended d d' tr H)
    as (pix_type & pix_order & rs & d1 & enum & He & Htr).
  exists pix_type, pix_order, rs, d1, enum.
  pose proof He as Hrun. unfold enum_resolutions in Hrun.
  pose proof (enum_resolutions_loop_regs _ _ _ _ _ _ _ _ Hrun) as [Hr Hq].
  pose proof (only_regs_reads _ _ PIXFORMAT_TYPE_REG Hr eq_refl) as Hrt.
  pose proof (only_regs_reads _ _ PIXFORMAT_ORDER_REG Hr eq_refl) as Hro.
  pose proof (only_regs_writes _ _ PIXFORMAT_INDEX_REG Hr eq_refl) as Hrw.
  apply enum_resolutions_loop_run in Hrun as (_ & _ & Hrun).
  destruct Hrun as [(rs' & vs & [= ->] & _ & _ & _ & _ & Hidx & _)
                   | ([Hx|Hx] & _)]; try discriminate Hx.
  split; [exact He|]. split; [exact Hr|]. split; [exact Htr|].
  rewrite Htr.
  change (EvWrite PIXFORMAT_INDEX_REG 0
            :: EvRead PIXFORMAT_TYPE_REG pix_type
            :: EvRead PIXFORMAT_ORDER_REG pix_order :: (enum ++ ?x)%list)
    with ([EvWrite PIXFORMAT_INDEX_REG 0; EvRead PIXFORMAT_TYPE_REG pix_type;
           EvRead PIXFORMAT_ORDER_REG pix_order] ++ enum ++ x)%list.
  obs. rewrite ?reads_of_prints, ?writes_of_prints, ?prints_of_prints.
  rewrite Hrt, Hro, Hrw, Hq. cbn [app].
  rewrite Hidx, zrange_0. repeat split; reflexivity.
Qed.

(** C10 on a camera with two pixel formats whose format cursor stands on
    the second one, YUV422 in UYVY order: the extended listing selects
    format 0 first and puts both resolutions under RGGB and RAW10. *)
Lemma list_formats_single_format_witness :
  (exists rest,
     snd (list_formats Mock.cameras Mock.float_format 10 true
            Mock.on_second_format)
     = EvWrite PIXFORMAT_INDEX_REG 0 :: EvRead PIXFORMAT_TYPE_REG 0x2B
         :: EvRead PIXFORMAT_ORDER_REG 0x3 :: rest)
  /\ prints_of (snd (list_formats Mock.cameras Mock.float_format 10 true
                       Mock.on_second_format))
     = [ "ioctl: VIDIOC_ENUM_FMT"; "        Type: Video Capture" ++ nl;
         "        [0]: 'RGGB' (RAW10)";
         "                Size: Discrete 1920x1080";
         "                        Interval: Discrete 0.017s (60.000 fps)";
         "        [1]: 'RGGB' (RAW10)";
         "                Size: Discrete 1280x720";
         "                        Interval: Discrete 0.017s (60.000 fps)" ].
Proof.
  pose (R := list_formats Mock.cameras Mock.float_format 10 true
               Mock.on_second_format).
  destruct (list_formats_single_format Mock.cameras Mock.float_format 10 true
              Mock.on_second_format (snd (fst R)) (fst (fst R)) (snd R))
    as (_ & _ & _ & _ & _ & Hok).
  - vm_compute. reflexivity.
  - destruct Hok
      as (pix_type & pix_order & rs & d1 & enum & _ & _ & Htr & _ & Ht & Ho
          & _ & Hp).
    + vm_compute. reflexivity.
    + unfold R in *.
      assert (Et : reads_of PIXFORMAT_TYPE_REG
                     (snd (list_formats Mock.cameras Mock.float_format 10 true
                             Mock.on_second_format)) = [0x2B])
        by (vm_compute; reflexivity).
      assert (Eo : reads_of PIXFORMAT_ORDER_REG
                     (snd (list_formats Mock.cameras Mock.float_format 10 true
                             Mock.on_second_format)) = [0x3])
        by (vm_compute; reflexivity).
      rewrite Ht in Et. rewrite Ho in Eo.
      injection Et as ->. injection Eo as ->.
      split; [eexists; exact Htr|].
      rewrite Hp.
      assert (E : prints_of
                    (snd (list_formats Mock.cameras Mock.float_format 10 true
                            Mock.on_second_format))
                  = [ "ioctl: VIDIOC_ENUM_FMT";
                      "        Type: Video Capture" ++ nl;
                      "        [0]: 'RGGB' (RAW10)";
                      "                Size: Discrete 1920x1080";
                      "                        Interval: Discrete 0.017s (60.000 fps)";
                      "        [1]: 'RGGB' (RAW10)";
                      "                Size: Discrete 1280x720";
                      "                        Interval: Discrete 0.017s (60.000 fps)" ])
        by (vm_compute; reflexivity).
      rewrite Hp in E. exact E.
Defined.

(** ** Enough fuel on a camera

    On the register-file device of a camera whose registers all read,
    [enum_resolutions] returns once the fuel exceeds the number of
    resolutions plus the number of controls. *)

Section CameraRuns.

Variable c : Mock.camera.
Hypothesis Hbroken : Mock.broken c = [].

Let T := Mock.camera_device c.






Hypothesis Hcount :
  Z.of_nat (List.length (Mock.resolutions c)) <= NO_DATA_AVAILABLE.


End CameraRuns.


(** ** C1: the sentinel ends the enumeration *)



(* ================================================================= *)
(** * Further properties of the decoders and tables *)

(** ** The firmware word and its text *)

(** X1: the version text depends on the low 32 bits of the register
    value only. *)
Theorem parse_isp_fw_version_low32 (v : Z) :
  parse_isp_fw_version v = parse_isp_fw_version (v mod 2 ^ 32).
Proof.
  unfold parse_isp_fw_version.
  rewrite <- (Z.land_ones v 32) by lia.
  rewrite <- !Z.land_assoc.
  change (Z.land (Z.ones 32) 0xFFFF0000) with 0xFFFF0000.
  change (Z.land (Z.ones 32) 0xFFFF) with 0xFFFF.
  reflexivity.
Qed.

Lemma renders_apart_spec (f : Z -> string) (bound : nat) (c : ascii) :
  renders_apart f bound c = true ->
  forall n, 0 <= n < Z.of_nat bound ->
    has_char c (f n) = false /\
    forall m, 0 <= m < Z.of_nat bound -> f n = f m -> n = m.
Proof.
  intros H.
  assert (Hall : forall n, 0 <= n < Z.of_nat bound ->
            decode_by f bound (f n) = Some n /\ has_char c (f n) = false).
  { intros n Hn. unfold renders_apart in H. rewrite forallb_forall in H.
    specialize (H n).
    destruct (decode_by f bound (f n)) as [m|].
    - assert (Hin : In n (map Z.of_nat (seq 0 bound))).
      { apply in_map_iff. exists (Z.to_nat n). split; [lia|].
        apply in_seq. lia. }
      apply H in Hin. apply andb_true_iff in Hin as [Hm Hc].
      apply Z.eqb_eq in Hm. apply negb_true_iff in Hc. subst. auto.
    - assert (Hin : In n (map Z.of_nat (seq 0 bound))).
      { apply in_map_iff. exists (Z.to_nat n). split; [lia|].
        apply in_seq. lia. }
      apply H in Hin. discriminate Hin. }
  intros n Hn. split; [apply Hall; exact Hn|].
  intros m Hm Heq.
  destruct (Hall n Hn) as [Hdn _]. destruct (Hall m Hm) as [Hdm _].
  rewrite Heq in Hdn. congruence.
Qed.

Lemma split_at_char (c : ascii) (a : string) : forall a' r r',
  has_char c a = false -> has_char c a' = false ->
  a ++ String c r = a' ++ String c r' -> a = a' /\ r = r'.
Proof.
  induction a as [|x a IH]; intros [|x' a'] r r' Ha Ha' H; cbn in *.
  - injection H as ->. auto.
  - injection H as <- _. rewrite Ascii.eqb_refl in Ha'. discriminate Ha'.
  - injection H as -> _. rewrite Ascii.eqb_refl in Ha. discriminate Ha.
  - injection H as -> H. apply orb_false_iff in Ha as [_ Ha].
    apply orb_false_iff in Ha' as [_ Ha'].
    destruct (IH a' r r' Ha Ha' H) as [-> ->]. auto.
Qed.

Lemma append_inj_r_nil (a a' : string) : a ++ "" = a' ++ "" -> a = a'.
Proof.
  assert (H : forall s, s ++ "" = s)
    by (induction s as [|x s IH]; cbn; congruence).
  now rewrite !H.
Qed.

Lemma isp_fields_word (v : Z) :
  0 <= v < 2 ^ 32 ->
  v = (FirmwareVersionDecoder.idHigh v * 256 + FirmwareVersionDecoder.idLow v)
        * 65536
      + FirmwareVersionDecoder.year v * 512
      + FirmwareVersionDecoder.month v * 32
      + FirmwareVersionDecoder.day v.
Proof.
  intros Hv.
  unfold FirmwareVersionDecoder.idHigh, FirmwareVersionDecoder.idLow,
    FirmwareVersionDecoder.year, FirmwareVersionDecoder.month,
    FirmwareVersionDecoder.day, FirmwareVersionDecoder.id,
    FirmwareVersionDecoder.date.
  change 0xFFFF with (Z.ones 16). change 0xFF with (Z.ones 8).
  change 0xF with (Z.ones 4). change 0x1F with (Z.ones 5).
  rewrite !Z.land_ones, !Z.shiftr_div_pow2 by lia.
  change (2 ^ 16) with 65536. change (2 ^ 8) with 256.
  change (2 ^ 9) with 512. change (2 ^ 5) with 32. change (2 ^ 4) with 16.
  change (2 ^ 32) with 4294967296 in Hv.
  Z.div_mod_to_equations. lia.
Qed.

Lemma isp_field_ranges (v : Z) :
  0 <= FirmwareVersionDecoder.idHigh v < 256
  /\ 0 <= FirmwareVersionDecoder.idLow v < 256
  /\ 0 <= FirmwareVersionDecoder.year v < 128
  /\ 0 <= FirmwareVersionDecoder.month v < 16
  /\ 0 <= FirmwareVersionDecoder.day v < 32.
Proof.
  unfold FirmwareVersionDecoder.idHigh, FirmwareVersionDecoder.idLow,
    FirmwareVersionDecoder.year, FirmwareVersionDecoder.month,
    FirmwareVersionDecoder.day, FirmwareVersionDecoder.id,
    FirmwareVersionDecoder.date.
  change 0xFFFF with (Z.ones 16). change 0xFF with (Z.ones 8).
  change 0xF with (Z.ones 4). change 0x1F with (Z.ones 5).
  rewrite !Z.land_ones, !Z.shiftr_div_pow2 by lia.
  change (2 ^ 16) with 65536. change (2 ^ 8) with 256.
  change (2 ^ 9) with 512. change (2 ^ 5) with 32. change (2 ^ 4) with 16.
  Z.div_mod_to_equations. lia.
Qed.

Lemma parse_isp_fw_version_fields (v : Z) :
  parse_isp_fw_version v =
    "v" ++ fmt_x (FirmwareVersionDecoder.idHigh v) ++ "."
        ++ fmt_02x (FirmwareVersionDecoder.idLow v) ++ " 20"
        ++ fmt_02d (FirmwareVersionDecoder.year v) ++ "/"
        ++ fmt_02d (FirmwareVersionDecoder.month v) ++ "/"
        ++ fmt_02d (FirmwareVersionDecoder.day v).
Proof.
  unfold parse_isp_fw_version.
  rewrite isp_id_field, isp_id_high_field. reflexivity.
Qed.

(** X2: the version text loses nothing of a 32-bit register value: two
    values with the same text are the same value. *)
Theorem parse_isp_fw_version_injective (v w : Z) :
  0 <= v < 2 ^ 32 -> 0 <= w < 2 ^ 32 ->
  parse_isp_fw_version v = parse_isp_fw_version w -> v = w.
Proof.
  intros Hv Hw Heq.
  rewrite (parse_isp_fw_version_fields v), (parse_isp_fw_version_fields w)
    in Heq.
  destruct (isp_field_ranges v) as (Hh & Hl & Hy & Hm & Hd).
  destruct (isp_field_ranges w) as (Hh' & Hl' & Hy' & Hm' & Hd').
  assert (Ax : renders_apart fmt_x 256 "."%char = true) by (vm_compute; reflexivity).
  assert (Al : renders_apart fmt_02x 256 " "%char = true) by (vm_compute; reflexivity).
  assert (Ad : renders_apart fmt_02d 128 "/"%char = true) by (vm_compute; reflexivity).
  pose proof (renders_apart_spec _ _ _ Ax) as Sx.
  pose proof (renders_apart_spec _ _ _ Al) as Sl.
  pose proof (renders_apart_spec _ _ _ Ad) as Sd.
  apply (append_inj_l "v") in Heq.
  apply split_at_char in Heq as [Eh Heq];
    [ | apply Sx; lia | apply Sx; lia ].
  change (" 20" ++ ?x) with (String " " ("20" ++ x)) in Heq.
  cbn [String.append] in Heq.
  apply split_at_char in Heq as [El Heq];
    [ | apply Sl; lia | apply Sl; lia ].
  injection Heq as Heq.
  apply split_at_char in Heq as [Ey Heq];
    [ | apply Sd; lia | apply Sd; lia ].
  apply split_at_char in Heq as [Em Ed];
    [ | apply Sd; lia | apply Sd; lia ].
  apply Sx in Eh; try lia. apply Sl in El; try lia.
  apply Sd in Ey; try lia. apply Sd in Em; try lia. apply Sd in Ed; try lia.
  rewrite (isp_fields_word v Hv), (isp_fields_word w Hw).
  rewrite Eh, El, Ey, Em, Ed. reflexivity.
Qed.

(** X2 at two firmware words that differ in the day only. *)
Lemma parse_isp_fw_version_injective_witness :
  0x01020A43 = 0x01020A43
  /\ (parse_isp_fw_version 0x01020A43 = parse_isp_fw_version 0x01020A44 -> False).
Proof.
  pose proof (parse_isp_fw_version_injective 0x01020A43 0x01020A43
                ltac:(lia) ltac:(lia) eq_refl) as Hsame.
  split; [exact Hsame|]. intros H.
  assert (E : 0x01020A43 = 0x01020A44).
  { apply (parse_isp_fw_version_injective 0x01020A43 0x01020A44);
      [lia | lia | exact H]. }
  discriminate E.
Defined.

(** ** Dictionaries *)

Lemma dict_find_set (d : dict) (k k' : Z) (v : string) :
  dict_find (dict_set d k v) k' =
    if k' =? k then Some v else dict_find d k'.
Proof.
  induction d as [|[k0 v0] d IH]; cbn [dict_set dict_find].
  - rewrite (Z.eqb_sym k k'). reflexivity.
  - destruct (Z.eqb_spec k0 k) as [->|Hk0]; cbn [dict_find].
    + rewrite (Z.eqb_sym k k'). destruct (k' =? k); reflexivity.
    + rewrite IH. destruct (Z.eqb_spec k0 k') as [->|Hk0'].
      * destruct (Z.eqb_spec k' k) as [->|_]; [contradiction|reflexivity].
      * reflexivity.
Qed.

Lemma dict_find_not_in (d : dict) (k : Z) :
  ~ In k (map fst d) -> dict_find d k = None.
Proof.
  induction d as [|[k0 v0] d IH]; intros Hn; cbn [dict_find]; [reflexivity|].
  cbn [map fst In] in Hn.
  destruct (Z.eqb_spec k0 k) as [->|_]; [exfalso; auto|]. apply IH. auto.
Qed.

(** X3: a lookup in [d.update(other)] is the lookup in [other], with the
    lookup in [d] as its default, when no key comes twice in [other] (as
    in a dict). *)
Theorem dict_update_get (d other : dict) (k : Z) (default : string) :
  NoDup (map fst other) ->
  dict_get (dict_update d other) k default =
    dict_get other k (dict_get d k default).
Proof.
  unfold dict_get, dict_update. intros Hnd.
  assert (H : dict_find
                (fold_left (fun acc kv => dict_set acc (fst kv) (snd kv)) other d) k
              = match dict_find other k with
                | Some v => Some v
                | None => dict_find d k
                end).
  { revert d. induction other as [|[k0 v0] other IH]; intros d;
      cbn [fold_left dict_find fst snd]; [reflexivity|].
    inversion Hnd as [|? ? Hnin Hnd']; subst.
    rewrite IH by exact Hnd'. rewrite dict_find_set.
    destruct (Z.eqb_spec k0 k) as [->|Hk].
    - rewrite Z.eqb_refl. now rewrite (dict_find_not_in other k Hnin).
    - destruct (Z.eqb_spec k k0) as [->|_]; [contradiction|reflexivity]. }
  rewrite H. destruct (dict_find other k); reflexivity.
Qed.

Lemma control_id_map_keys : NoDup (map fst control_id_map).
Proof.
  assert (H : nodup Z.eq_dec (map fst control_id_map) = map fst control_id_map)
    by (vm_compute; reflexivity).
  pose proof (NoDup_nodup Z.eq_dec (map fst control_id_map)) as Hn.
  rewrite H in Hn. exact Hn.
Qed.

(** X3 on the table of control names: [ID_map] answers a key of
    [control_id_map] with its name there, and any other key as the table
    it was before the update. *)
Lemma dict_update_get_witness :
  dict_get ID_map 0x981906 "Unknown" = "Framerate"
  /\ dict_get ID_map 0x980914 "Unknown" = "horizontal_flip"
  /\ dict_get ID_map 0x123456 "Unknown" = "Unknown".
Proof.
  unfold ID_map.
  rewrite !(dict_update_get _ control_id_map _ _ control_id_map_keys).
  repeat split; reflexivity.
Defined.

(** ** Integer formats *)

Lemma zeros_length (n : nat) : String.length (zeros n) = n.
Proof. induction n; cbn; congruence. Qed.

(** X4: a padded format never cuts a number: the text has the width asked
    for, or the full length of sign and digits when that is more. *)
Theorem format_int_length (conv : N -> string) (width : nat) (n : Z) :
  String.length (format_int conv width n) =
    Nat.max width
      (String.length (if n <? 0 then "-" else "")
       + String.length (conv (Z.abs_N n))).
Proof.
  unfold format_int. rewrite !length_append, zeros_length.
  destruct (n <? 0); cbn [String.length]; lia.
Qed.

(** ** The two decodings of the pixel order *)

Lemma raw_type_not_yuv (pix_type : Z) :
  Zmem pix_type [0x2A; 0x2B; 0x2C] = true ->
  Zmem pix_type [0x18; 0x19; 0x1E] = false.
Proof.
  unfold Zmem. cbn [existsb]. intros Hraw.
  repeat match goal with
  | H : context [pix_type =? ?k] |- _ =>
      destruct (Z.eqb_spec pix_type k) as [E|?]; [rewrite E; reflexivity|]
  end. discriminate Hraw.
Qed.

(** X5: the order printed by the full probe and the FOURCC of the listing
    come from the same tables and part on the fallback only.  For a RAW
    type both are the Bayer-table entry of the order code; for a code that
    is not in the table the probe prints Unknown and the listing takes
    RGGB.  For a YUV type both are the YUV-table entry; for a code that is
    not in the table the probe prints Unknown and the listing takes YUYV.
    For every other type the probe prints no order, and the listing says
    MJPG for type 0x30 and UNKN otherwise. *)
Theorem main_order_fourcc (pix_type pix_order : Z) :
  (Zmem pix_type [0x2A; 0x2B; 0x2C] = true ->
     match dict_find raw_bayer_order pix_order with
     | Some name =>
         main_order pix_type pix_order = Some name
         /\ list_formats_fourcc pix_type pix_order = name
     | None =>
         main_order pix_type pix_order = Some "Unknown"
         /\ list_formats_fourcc pix_type pix_order = "RGGB"
     end)
  /\ (Zmem pix_type [0x18; 0x19; 0x1E] = true ->
     match dict_find yuv_order pix_order with
     | Some name =>
         main_order pix_type pix_order = Some name
         /\ list_formats_fourcc pix_type pix_order = name
     | None =>
         main_order pix_type pix_order = Some "Unknown"
         /\ list_formats_fourcc pix_type pix_order = "YUYV"
     end)
  /\ (Zmem pix_type [0x2A; 0x2B; 0x2C] = false ->
      Zmem pix_type [0x18; 0x19; 0x1E] = false ->
      main_order pix_type pix_order = None
      /\ list_formats_fourcc pix_type pix_order
         = if pix_type =? 0x30 then "MJPG" else "UNKN").
Proof.
  unfold main_order, list_formats_fourcc, dict_get.
  split; [|split].
  - intros Hraw. rewrite (raw_type_not_yuv _ Hraw), Hraw.
    destruct (dict_find raw_bayer_order pix_order); auto.
  - intros Hyuv.
    destruct (Zmem pix_type [0x2A; 0x2B; 0x2C]) eqn:Hraw.
    + rewrite (raw_type_not_yuv _ Hraw) in Hyuv. discriminate Hyuv.
    + rewrite Hyuv. destruct (dict_find yuv_order pix_order); auto.
  - intros -> ->. auto.
Qed.

(** X5 at a RAW10 format with order 3 and with the unmapped order 9, at a
    YUV format with the unmapped order 9, and at the JPEG type. *)
Lemma main_order_fourcc_witness :
  (main_order 0x2B 3 = Some "RGGB" /\ list_formats_fourcc 0x2B 3 = "RGGB")
  /\ (main_order 0x2B 9 = Some "Unknown" /\ list_formats_fourcc 0x2B 9 = "RGGB")
  /\ (main_order 0x1E 9 = Some "Unknown" /\ list_formats_fourcc 0x1E 9 = "YUYV")
  /\ (main_order 0x30 0 = None /\ list_formats_fourcc 0x30 0 = "MJPG").
Proof.
  split; [|split; [|split]].
  - exact (proj1 (main_order_fourcc 0x2B 3) eq_refl).
  - exact (proj1 (main_order_fourcc 0x2B 9) eq_refl).
  - exact (proj1 (proj2 (main_order_fourcc 0x1E 9)) eq_refl).
  - exact (proj2 (proj2 (main_order_fourcc 0x30 0)) eq_refl eq_refl).
Defined.

(** ** The device named on the command line *)

Lemma has_char_app (c : ascii) (a b : string) :
  has_char c (a ++ b) = has_char c a || has_char c b.
Proof.
  induction a as [|x a IH]; cbn [String.append has_char]; [reflexivity|].
  rewrite IH. apply orb_assoc.
Qed.

Lemma basename_from_app (a b : string) : forall acc,
  basename_from (a ++ b) acc = basename_from b (basename_from a acc).
Proof.
  induction a as [|x a IH]; intros acc; cbn [String.append basename_from];
    [reflexivity|].
  destruct (Ascii.eqb x "/"); apply IH.
Qed.

Lemma basename_from_plain (n : string) : forall acc,
  has_char "/" n = false -> basename_from n acc = acc ++ n.
Proof.
  induction n as [|x n IH]; intros acc Hn; cbn [basename_from has_char] in *.
  - induction acc as [|y acc IHa]; cbn; congruence.
  - apply orb_false_iff in Hn as [Hx Hn]. rewrite Hx, IH by exact Hn.
    now rewrite append_assoc.
Qed.

Lemma basename_from_no_slash (p : string) : forall acc,
  has_char "/" acc = false -> has_char "/" (basename_from p acc) = false.
Proof.
  induction p as [|x p IH]; intros acc Hacc; cbn [basename_from]; [exact Hacc|].
  destruct (Ascii.eqb x "/") eqn:Hx; apply IH; [reflexivity|].
  rewrite has_char_app, Hacc. cbn [has_char]. now rewrite Hx.
Qed.

Lemma basename_under_dir (dir name : string) :
  has_char "/" name = false -> basename (dir ++ "/" ++ name) = name.
Proof.
  intros Hn. unfold basename.
  rewrite basename_from_app. cbn [String.append basename_from].
  cbn. now rewrite basename_from_plain.
Qed.

(** X6: [basename] keeps what follows the last slash: it never holds a
    slash, it is the name itself after any directory prefix, and it is
    empty for a path that ends in a slash. *)
Theorem basename_last_component (p dir name : string) :
  has_char "/" (basename p) = false
  /\ basename (p ++ "/") = ""
  /\ (has_char "/" name = false ->
      basename name = name /\ basename (dir ++ "/" ++ name) = name).
Proof.
  unfold basename. split; [now apply basename_from_no_slash|]. split.
  - rewrite basename_from_app. reflexivity.
  - intros Hn. split; [now rewrite basename_from_plain|].
    now apply basename_under_dir.
Qed.

(** X6 at /dev/video0. *)
Lemma basename_last_component_witness :
  basename "video0" = "video0" /\ basename ("/dev" ++ "/" ++ "video0") = "video0".
Proof.
  destruct (basename_last_component "" "/dev" "video0") as (_ & _ & H).
  apply H. reflexivity.
Defined.

(** X7: with -d and no -b, the table is asked for the last component of
    the path given: a path and the bare name select the same device, the
    bus of its entry; a name that is missing from the table or mapped to
    null is the error, worded with the path as given. *)
Theorem devices_to_probe_by_name (args : Args) (mapping : Mapping)
    (dir name : string)
    (Hbus : arg_bus args = None)
    (Hdev : arg_device args = Some (dir ++ "/" ++ name))
    (Hname : has_char "/" name = false) :
  devices_to_probe args mapping =
    match mapping_find mapping name with
    | Some (Some info) =>
        inl [ {| dev_bus := info_bus info; dev_name := name |} ]
    | _ => inr ("No mapping found for device " ++ dir ++ "/" ++ name)
    end.
Proof.
  unfold devices_to_probe. rewrite Hbus, Hdev.
  rewrite (basename_under_dir dir name Hname).
  destruct (mapping_find mapping name) as [[info|]|]; reflexivity.
Qed.

(** X7 at /dev/video1 in a table of three devices. *)
Lemma devices_to_probe_by_name_witness :
  devices_to_probe
    {| arg_bus := None; arg_device := Some ("/dev" ++ "/" ++ "video1");
       arg_list_formats := false; arg_list_formats_ext := false;
       arg_verbose := false |} Mock.mapping3
  = inl [ {| dev_bus := 2; dev_name := "video1" |} ].
Proof.
  rewrite (devices_to_probe_by_name _ Mock.mapping3 "/dev" "video1");
    reflexivity.
Defined.

(** ** What a probe can raise *)

Section Raises.

Variable T : Transport.
Variable F : FloatFormat.

Lemma soft_version_loop_raises (indices : list Z) : forall version d e d' tr,
  soft_version_loop T indices version d = (Raise e, d', tr) ->
  e = TransportError \/ (e = ValueError /\ ~ unsigned T).
Proof.
  induction indices as [|i indices IH]; intros version d e d' tr H;
    cbn [soft_version_loop] in H.
  - run_inv H.
  - run_inv H; tests; eauto.
    right. split; [reflexivity|]. intros HU.
    match goal with
    | Hrd : read_16_32 _ _ _ _ = Some (?a, _), Hneg : ?a < 0 |- _ =>
        pose proof (HU _ _ _ _ _ Hrd); lia
    end.
Qed.

Lemma get_software_fw_version_raises d e d' tr :
  get_software_fw_version T d = (Raise e, d', tr) ->
  e = TransportError \/ (e = ValueError /\ ~ unsigned T).
Proof.
  unfold get_software_fw_version. intros H. run_inv H; eauto.
  eapply soft_version_loop_raises; eauto.
Qed.

Lemma enum_resolutions_raises fuel d e d' tr :
  enum_resolutions T fuel d = (Raise e, d', tr) -> e = TransportError.
Proof.
  intros H. apply enum_resolutions_loop_run in H as (_ & _ & H).
  destruct H as [(rs & vs & Ho & _) | ([Ho|Ho] & _)]; try discriminate Ho.
  now injection Ho.
Qed.

Lemma list_formats_raises fuel extended d e d' tr :
  list_formats T F fuel extended d = (Raise e, d', tr) -> e = TransportError.
Proof.
  unfold list_formats. intros H. run_inv H; auto.
  - apply list_formats_rows_run in H as [Ho _]. discriminate Ho.
  - eapply enum_resolutions_raises; eauto.
Qed.

Lemma main_pix_loop_raises fuel c d e d' tr :
  main_pix_loop T fuel c d = (Raise e, d', tr) -> e = TransportError.
Proof.
  intros H. apply main_pix_loop_run in H.
  destruct H as [(vs & Ho & _) | ([Ho|Ho] & _)]; try discriminate Ho.
  now injection Ho.
Qed.

Lemma full_info_probe_raises fuel d e d' tr :
  full_info_probe T fuel d = (Raise e, d', tr) ->
  e = TransportError \/ (e = ValueError /\ ~ unsigned T).
Proof.
  unfold full_info_probe. intros H. run_inv H; auto.
  - left. eapply main_pix_loop_raises; eauto.
  - eapply get_software_fw_version_raises; eauto.
Qed.

Lemma probe_camera_raises fuel args d e d' tr :
  probe_camera T F fuel args d = (Raise e, d', tr) ->
  e = TransportError \/ (e = ValueError /\ ~ unsigned T).
Proof.
  unfold probe_camera.
  destruct (arg_list_formats args || arg_list_formats_ext args); intros H.
  - left. eapply list_formats_raises; eauto.
  - eapply full_info_probe_raises; eauto.
Qed.

Lemma probe_devices_raises fuel args (devices : list Device) :
  forall buses e buses' evs,
    probe_devices T F fuel args devices buses = (Raise e, buses', evs) ->
    e = TransportError \/ (e = ValueError /\ ~ unsigned T).
Proof.
  induction devices as [|dev rest IH]; intros buses e buses' evs H;
    cbn [probe_devices] in H; [discriminate H|].
  destruct (buses (dev_bus dev)) as [camera|msg].
  - destruct (probe_camera T F fuel args camera) as [[[[]|e1|] camera'] evs1] eqn:Hc.
    + destruct (probe_devices T F fuel args rest _) as [[o2 b2] evs2] eqn:Hr.
      injection H as -> <- <-. eapply IH; eauto.
    + injection H as <- <- <-. eapply probe_camera_raises; eauto.
    + discriminate H.
  - destruct (probe_devices T F fuel args rest buses) as [[o2 b2] evs2] eqn:Hr.
    injection H as -> <- <-. eapply IH; eauto.
Qed.

End Raises.

Lemma word32_unsigned (T : Transport) : word32 T -> unsigned T.
Proof. intros H d a r v d' Hr. now apply (H d a r v d'). Qed.

Lemma cam_broken_word32 : word32 (Mock.camera_device Mock.cam_broken).
Proof.
  intros d a r v d'. cbn. unfold Mock.respond.
  destruct (Zmem r (Mock.broken Mock.cam_broken)); [discriminate|].
  intros [= <- _]. unfold Mock.value, Mock.presence.
  repeat match goal with
  | |- _ <= (if ?c then _ else _) < _ => destruct c eqn:?
  end;
  cbn [Mock.cam_broken Mock.device_id Mock.device_version
    Mock.sensor_id Mock.isp_fw_version Mock.soft_version Mock.formats
    Mock.resolutions Mock.controls List.length] in *;
  repeat match goal with
  | H : _ && _ = true |- _ => apply andb_prop in H as [? ?]
  end;
  tests;
  repeat match goal with
  | H : (_ <=? _) = true |- _ => apply Z.leb_le in H
  end;
  try (unfold NO_DATA_AVAILABLE; lia).
  all: match goal with
       | |- _ <= ?f (Mock.nthZ ?l ?i ?dflt) < _ =>
           apply (nthZ_Forall (fun x => 0 <= f x < 2 ^ 32) l i dflt)
       | |- _ <= ?f (?g (Mock.nthZ ?l ?i ?dflt)) < _ =>
           apply (nthZ_Forall (fun x => 0 <= f (g x) < 2 ^ 32) l i dflt)
       | |- _ <= ?f (?g (?h (Mock.nthZ ?l ?i ?dflt))) < _ =>
           apply (nthZ_Forall (fun x => 0 <= f (g (h x)) < 2 ^ 32) l i dflt)
       | |- _ <= Mock.nthZ ?l ?i ?dflt < _ =>
           apply (nthZ_Forall (fun x => 0 <= x < 2 ^ 32) l i dflt)
       end; repeat constructor; cbn; lia.
Qed.

(** X8: on a transport whose reads fit 32 bits, the only exceptions that
    leave the device loop are the failure of a bus access and the
    [ValueError] of [chr] on a negative character code; on a transport
    whose reads are 32-bit words it is the bus failure and nothing else.
    The [RuntimeError] of a bus that does not open never leaves the
    loop. *)
Theorem probe_devices_exceptions (T : Transport) (F : FloatFormat)
    (fuel : nat) (args : Args) (devices : list Device)
    (buses buses' : Buses T) (e : exn) (evs : list event)
    (H : probe_devices T F fuel args devices buses = (Raise e, buses', evs)) :
  (fits32 T -> e = TransportError \/ e = ValueError)
  /\ (word32 T -> e = TransportError).
Proof.
  apply probe_devices_raises in H. split.
  - intros _. destruct H as [H | [H _]]; auto.
  - intros HU. apply word32_unsigned in HU.
    destruct H as [H | [_ H]]; [exact H | contradiction].
Qed.

(** X8 on a camera whose width register cannot be read: its full probe
    leaves the device loop with the bus failure. *)
Lemma probe_devices_exceptions_witness :
  fst (fst (probe_devices (Mock.camera_device Mock.cam_broken)
              Mock.float_format 10 Mock.no_args
              [ {| dev_bus := 1; dev_name := "video0" |} ]
              (fun _ => inl [])))
  = Raise TransportError.
Proof.
  pose (R := probe_devices (Mock.camera_device Mock.cam_broken)
               Mock.float_format 10 Mock.no_args
               [ {| dev_bus := 1; dev_name := "video0" |} ]
               (fun _ => inl [])).
  assert (HR : exists e b evs, R = (Raise e, b, evs)).
  { eexists _, _, _. vm_compute. reflexivity. }
  destruct HR as (e & b & evs & HR).
  destruct (probe_devices_exceptions _ _ _ _ _ _ _ _ _ HR) as [_ He].
  change (fst (fst R) = Raise TransportError).
  rewrite HR, (He cam_broken_word32). reflexivity.
Defined.

(** ** How a run of [main] ends *)

Lemma only_regs_banner (args : Args) :
  only_regs [] (if arg_verbose args then banner else []) = true.
Proof. destruct (arg_verbose args); reflexivity. Qed.

Lemma last_print_app (evs : list event) (line : string) :
  prints_of (evs ++ [EvPrint line]) = (prints_of evs ++ [line])%list.
Proof. now rewrite prints_of_app. Qed.

Lemma main_namespace_exit (T : Transport) (F : FloatFormat) (fuel : nat)
    (args : Args) (mapping_file : option Mapping) (buses : Buses T) :
  (config_error args mapping_file ->
   exists evs lines line,
     main T F fuel (Namespace args) mapping_file buses = (Raise (SystemExit 1), buses, evs)
     /\ only_regs [] evs = true
     /\ prints_of evs = (lines ++ [line])%list
     /\ String.prefix error_prefix line = true)
  /\ (forall code buses' evs,
      main T F fuel (Namespace args) mapping_file buses = (Raise (SystemExit code), buses', evs) ->
      config_error args mapping_file /\ code = 1).
Proof.
  split.
  - intros Hcfg. unfold main.
    destruct (arg_bus args) as [bus|] eqn:Hbus;
      destruct (arg_device args) as [device|] eqn:Hdev.
    + exists [EvPrint (log_line "Options -b and -d are mutually exclusive" ERROR)],
        [], (log_line "Options -b and -d are mutually exclusive" ERROR).
      repeat split; reflexivity.
    + destruct Hcfg as [[_ Hc] | [-> | (Hc & _)]]; try congruence.
      eexists _, _, _. split; [reflexivity|].
      rewrite only_regs_app, only_regs_banner, last_print_app.
      repeat split; reflexivity.
    + destruct Hcfg as [[Hc _] | [-> | (_ & dev' & m & Hd & -> & Hno)]];
        try congruence; [|rewrite Hdev in Hd; injection Hd as Hd; subst dev'].
      * eexists _, _, _. split; [reflexivity|].
        rewrite only_regs_app, only_regs_banner, last_print_app.
        repeat split; reflexivity.
      * unfold devices_to_probe. rewrite Hbus, Hdev.
        destruct (mapping_find m (basename device)) as [[info|]|] eqn:Hfind;
          [exfalso; eapply Hno; eauto | |];
          (eexists _, _, _; split; [reflexivity|];
           rewrite !only_regs_app, only_regs_banner, last_print_app;
           repeat split; reflexivity).
    + destruct Hcfg as [[Hc _] | [-> | (_ & dev' & m & Hc & _)]];
        try congruence.
      eexists _, _, _. split; [reflexivity|].
      rewrite only_regs_app, only_regs_banner, last_print_app.
      repeat split; reflexivity.
  - intros code buses' evs H. unfold main in H.
    assert (Hprobe : forall devices o b e,
               probe_devices T F fuel args devices buses = (o, b, e) ->
               o <> Raise (SystemExit code)).
    { intros devices o b e Hp ->.
      apply probe_devices_raises in Hp as [Hp | [Hp _]]; discriminate Hp. }
    destruct (arg_bus args) as [bus|] eqn:Hbus;
      destruct (arg_device args) as [device|] eqn:Hdev.
    + injection H as <- _ _. split; [|reflexivity]. left. split; congruence.
    + destruct mapping_file as [m|].
      * exfalso. unfold devices_to_probe in H. rewrite Hbus in H.
        destruct (probe_devices T F fuel args _ buses) as [[o b] e] eqn:Hp.
        injection H as -> _ _. eapply Hprobe; eauto.
      * injection H as <- _ _. split; [|reflexivity]. right; left. reflexivity.
    + destruct mapping_file as [m|].
      * unfold devices_to_probe in H. rewrite Hbus, Hdev in H.
        destruct (mapping_find m (basename device)) as [[info|]|] eqn:Hfind.
        -- exfalso.
           destruct (probe_devices T F fuel args _ buses) as [[o b] e] eqn:Hp.
           injection H as -> _ _. eapply Hprobe; eauto.
        -- injection H as <- _ _. split; [|reflexivity]. right; right.
           split; [exact Hbus|]. exists device, m.
           repeat split; auto. intros info. rewrite Hfind. discriminate.
        -- injection H as <- _ _. split; [|reflexivity]. right; right.
           split; [exact Hbus|]. exists device, m.
           repeat split; auto. intros info. rewrite Hfind. discriminate.
      * injection H as <- _ _. split; [|reflexivity]. right; left. reflexivity.
    + destruct mapping_file as [m|].
      * exfalso. unfold devices_to_probe in H. rewrite Hbus, Hdev in H.
        destruct (probe_devices T F fuel args _ buses) as [[o b] e] eqn:Hp.
        injection H as -> _ _. eapply Hprobe; eauto.
      * injection H as <- _ _. split; [|reflexivity]. right; left. reflexivity.
Qed.

(** X9: how [main] leaves through [sys.exit].  When [parse_args] leaves
    the program, [main] ends with the parser's status and has touched
    nothing.  With the arguments parsed, [main] exits with status 1 on
    each configuration it refuses (both -b and -d, no mapping table, a -d
    that is not mapped): it has then opened no bus and accessed no
    register, and its last line is an error line.  There is no other
    [SystemExit]: one with status [code] is the parser's own, or has
    status 1 and comes from a refused configuration; no probe ends the
    run that way. *)
Theorem main_exit_status (T : Transport) (F : FloatFormat) (fuel : nat)
    (parsed : parse_result) (mapping_file : option Mapping)
    (buses : Buses T) :
  (forall code, parsed = ParserExit code ->
     main T F fuel parsed mapping_file buses
     = (Raise (SystemExit code), buses, []))
  /\ (forall args,
        parsed = Namespace args -> config_error args mapping_file ->
        exists evs lines line,
          main T F fuel parsed mapping_file buses
          = (Raise (SystemExit 1), buses, evs)
          /\ only_regs [] evs = true
          /\ prints_of evs = (lines ++ [line])%list
          /\ String.prefix error_prefix line = true)
  /\ (forall code buses' evs,
        main T F fuel parsed mapping_file buses
        = (Raise (SystemExit code), buses', evs) ->
        parsed = ParserExit code
        \/ exists args,
             parsed = Namespace args
             /\ config_error args mapping_file /\ code = 1).
Proof.
  split; [|split].
  - intros code ->. reflexivity.
  - intros args -> Hcfg.
    now apply (proj1 (main_namespace_exit T F fuel args mapping_file buses)).
  - intros code buses' evs H. destruct parsed as [args|code'].
    + right. exists args. split; [reflexivity|].
      eapply (proj2 (main_namespace_exit T F fuel args mapping_file buses)).
      exact H.
    + left. cbn [main] in H. injection H as <- _ _. reflexivity.
Qed.

(** X9 with the arguments parsed and no mapping table: status 1; and with
    a command line that [argparse] refuses: the parser's status 2. *)
Lemma main_exit_status_witness :
  fst (fst (main Mock.cameras Mock.float_format 10 (Namespace Mock.no_args) None
              (Mock.machine (Some Mock.cam1) None None)))
  = Raise (SystemExit 1)
  /\ fst (fst (main Mock.cameras Mock.float_format 10 (ParserExit 2) None
                 (Mock.machine (Some Mock.cam1) None None)))
     = Raise (SystemExit 2).
Proof.
  split.
  - destruct (main_exit_status Mock.cameras Mock.float_format 10
                (Namespace Mock.no_args) None
                (Mock.machine (Some Mock.cam1) None None)) as (_ & H & _).
    destruct (H Mock.no_args eq_refl) as (evs & lines & line & -> & _).
    + right; left. reflexivity.
    + reflexivity.
  - destruct (main_exit_status Mock.cameras Mock.float_format 10
                (ParserExit 2) None
                (Mock.machine (Some Mock.cam1) None None)) as (H & _).
    rewrite (H 2 eq_refl). reflexivity.
Defined.

(** ** A batch in which no bus opens *)

Lemma mapped_devices_names (mapping : Mapping) :
  map dev_name (mapped_devices mapping) = map fst (filter is_mapped mapping).
Proof.
  induction mapping as [|[name [info|]] mapping IH];
    cbn [mapped_devices filter is_mapped snd map fst dev_name]; congruence.
Qed.

Section Closed.

Variable T : Transport.
Variable F : FloatFormat.

Lemma probe_devices_all_closed fuel args (devices : list Device)
    (buses : Buses T) :
  (forall dev, In dev devices -> exists msg, buses (dev_bus dev) = inr msg) ->
  exists evs,
    probe_devices T F fuel args devices buses = (Ok tt, buses, evs)
    /\ only_regs [] evs = true
    /\ List.length (prints_of evs) = List.length devices
    /\ Forall (fun line => String.prefix open_failure_prefix line = true)
              (prints_of evs).
Proof.
  induction devices as [|dev rest IH]; intros Hclosed; cbn [probe_devices].
  - exists []. split; [reflexivity|]. split; [reflexivity|].
    split; [reflexivity|constructor].
  - destruct (Hclosed dev (or_introl eq_refl)) as [msg ->].
    destruct IH as (evs & -> & Hregs & Hlen & Hall).
    { intros d Hd. apply Hclosed. now right. }
    eexists. split; [reflexivity|].
    cbn [only_regs forallb ev_on prints_of List.length].
    unfold only_regs in Hregs. rewrite Hregs, Hlen.
    split; [reflexivity|]. split; [reflexivity|].
    constructor; [reflexivity|exact Hall].
Qed.

End Closed.

(** X10: in a run without -b and -d, the devices probed are the entries of
    the table that are not null, in table order.  When none of their buses
    opens (or the table maps nothing), [main] still returns normally: it
    has printed one open-failure line for each mapped device and accessed
    no register. *)
Theorem main_no_bus_opens (T : Transport) (F : FloatFormat) (fuel : nat)
    (args : Args) (mapping : Mapping) (buses : Buses T)
    (Hbus : arg_bus args = None) (Hdev : arg_device args = None)
    (Hclosed : forall name info,
        In (name, Some info) mapping ->
        exists msg, buses (info_bus info) = inr msg) :
  exists evs,
    main T F fuel (Namespace args) (Some mapping) buses
      = (Ok tt, buses, (preamble args ++ evs)%list)
    /\ only_regs [] evs = true
    /\ List.length (prints_of evs) = List.length (filter is_mapped mapping)
    /\ Forall (fun line => String.prefix open_failure_prefix line = true)
              (prints_of evs).
Proof.
  unfold main, devices_to_probe. rewrite Hbus, Hdev.
  destruct (probe_devices_all_closed T F fuel args (mapped_devices mapping) buses)
    as (evs & Hrun & Hregs & Hlen & Hall).
  { intros dev Hin. clear - Hin Hclosed.
    induction mapping as [|[name [info|]] mapping IH];
      cbn [mapped_devices] in Hin; [contradiction| |].
    - destruct Hin as [<- | Hin].
      + apply (Hclosed name info). now left.
      + apply IH; auto. intros n i Hi. apply (Hclosed n i). now right.
    - apply IH; auto. intros n i Hi. apply (Hclosed n i). now right. }
  exists evs. rewrite Hrun. split; [reflexivity|]. split; [exact Hregs|].
  split; [|exact Hall].
  rewrite Hlen, <- (length_map dev_name), mapped_devices_names, length_map.
  reflexivity.
Qed.

(** X10 on a machine none of whose three mapped buses opens. *)
Lemma main_no_bus_opens_witness :
  fst (fst (main Mock.cameras Mock.float_format 10 (Namespace Mock.no_args)
              (Some Mock.mapping3) (Mock.machine None None None))) = Ok tt
  /\ List.length
       (prints_of (snd (main Mock.cameras Mock.float_format 10 (Namespace Mock.no_args)
                          (Some Mock.mapping3) (Mock.machine None None None))))
     = 4%nat.
Proof.
  destruct (main_no_bus_opens Mock.cameras Mock.float_format 10 Mock.no_args
              Mock.mapping3 (Mock.machine None None None) eq_refl eq_refl)
    as (evs & -> & _ & Hlen & _).
  - intros name info Hin. eexists. unfold Mock.machine.
    cbn [In Mock.mapping3] in Hin.
    destruct Hin as [[= <- <-] | [[= <- <-] | [[= <- <-] | []]]]; reflexivity.
  - split; [reflexivity|]. cbn [snd]. rewrite prints_of_app, length_app, Hlen.
    reflexivity.
Defined.

(** ** The registers a probe touches *)

(** Evaluate the membership tests of closed registers. *)
Ltac footprint :=
  repeat (rewrite ?forallb_app;
          cbn [forallb app probe_event listing_event andb orb negb];
          repeat match goal with
          | |- context [Zmem ?a ?l] =>
              let v := eval vm_compute in (Zmem a l) in
              match v with
              | true => change (Zmem a l) with true
              | false => change (Zmem a l) with false
              end
          end;
          reg_eqb; cbn [andb orb negb]).

Lemma listing_is_probe (tr : list event) :
  forallb listing_event tr = true -> forallb probe_event tr = true.
Proof.
  rewrite !forallb_forall. intros H e He. specialize (H e He).
  destruct e as [r v|r v| |s]; cbn [listing_event probe_event] in *; auto.
  - unfold Zmem in *. cbn [existsb] in *.
    repeat match goal with
    | H : context [r =? ?k] |- _ =>
        destruct (Z.eqb_spec r k) as [->|?]; [reflexivity|]
    end. discriminate H.
  - unfold Zmem in *. cbn [existsb] in *.
    repeat match goal with
    | H : context [r =? ?k] |- _ =>
        destruct (Z.eqb_spec r k) as [->|?]; [reflexivity|]
    end. discriminate H.
Qed.

Section Footprint.

Variable T : Transport.
Variable F : FloatFormat.

Lemma max_fps_loop_listing fuel : forall c d o d' tr,
  max_fps_loop T fuel c d = (o, d', tr) -> forallb listing_event tr = true.
Proof.
  induction fuel as [|fuel IH]; intros c d o d' tr H; cbn [max_fps_loop] in H.
  - run_inv H. reflexivity.
  - run_inv H; footprint; try reflexivity. eapply IH; eauto.
Qed.

Lemma enum_resolutions_loop_listing fuel : forall i acc d o d' tr,
  enum_resolutions_loop T fuel i acc d = (o, d', tr) ->
  forallb listing_event tr = true.
Proof.
  induction fuel as [|fuel IH]; intros i acc d o d' tr H;
    cbn [enum_resolutions_loop] in H.
  - run_inv H. reflexivity.
  - run_inv H;
      repeat match goal with
      | Hf : max_fps_loop _ _ _ _ = _ |- _ => apply max_fps_loop_listing in Hf
      | Hf : enum_resolutions_loop _ _ _ _ _ = _ |- _ => apply IH in Hf
      end;
      footprint;
      repeat match goal with
      | Hx : forallb _ _ = true |- _ => rewrite Hx
      end; reflexivity.
Qed.

Lemma list_formats_listing fuel extended d o d' tr :
  list_formats T F fuel extended d = (o, d', tr) ->
  forallb listing_event tr = true.
Proof.
  unfold list_formats, enum_resolutions. intros H.
  run_inv H;
    repeat match goal with
    | Hf : enum_resolutions_loop _ _ _ _ _ = _ |- _ =>
        apply enum_resolutions_loop_listing in Hf
    | Hf : for_each _ (list_formats_row _ _ _ _ _) _ = _ |- _ =>
        apply list_formats_rows_run in Hf as [? ->]
    end;
    footprint;
    repeat match goal with
    | Hx : forallb _ _ = true |- _ => rewrite Hx
    end; try reflexivity.
  clear. induction (flat_map _ _) as [|l ls IH]; cbn; auto.
Qed.

Lemma main_ctrl_loop_probe fuel : forall c d o d' tr,
  main_ctrl_loop T fuel c d = (o, d', tr) -> forallb probe_event tr = true.
Proof.
  induction fuel as [|fuel IH]; intros c d o d' tr H; cbn [main_ctrl_loop] in H.
  - run_inv H. reflexivity.
  - run_inv H; footprint; try reflexivity. eapply IH; eauto.
Qed.

Lemma main_resolutions_probe fuel (rs : list resolution) : forall d o d' tr,
  for_each rs (main_resolution T fuel) d = (o, d', tr) ->
  forallb probe_event tr = true.
Proof.
  induction rs as [|r rs IH]; intros d o d' tr H; cbn [for_each] in H.
  - run_inv H. reflexivity.
  - unfold main_resolution in H at 1.
    run_inv H;
      repeat match goal with
      | Hf : main_ctrl_loop _ _ _ _ = _ |- _ => apply main_ctrl_loop_probe in Hf
      | Hf : for_each _ _ _ = _ |- _ => apply IH in Hf
      end;
      footprint;
      repeat match goal with
      | Hx : forallb _ _ = true |- _ => rewrite Hx
      end; reflexivity.
Qed.

Lemma main_pix_loop_probe fuel : forall c d o d' tr,
  main_pix_loop T fuel c d = (o, d', tr) -> forallb probe_event tr = true.
Proof.
  induction fuel as [|fuel IH]; intros c d o d' tr H; cbn [main_pix_loop] in H.
  - run_inv H. reflexivity.
  - unfold enum_resolutions in H.
    run_inv H;
      repeat match goal with
      | Hf : enum_resolutions_loop _ _ _ _ _ = _ |- _ =>
          apply enum_resolutions_loop_listing, listing_is_probe in Hf
      | Hf : for_each _ _ _ = _ |- _ => apply main_resolutions_probe in Hf
      | Hf : main_pix_loop _ _ _ _ = _ |- _ => apply IH in Hf
      end;
      footprint;
      repeat match goal with
      | Hx : forallb _ _ = true |- _ => rewrite Hx
      end; reflexivity.
Qed.

Lemma soft_version_loop_probe (indices : list Z) : forall version d o d' tr,
  soft_version_loop T indices version d = (o, d', tr) ->
  forallb probe_event tr = true.
Proof.
  induction indices as [|i indices IH]; intros version d o d' tr H;
    cbn [soft_version_loop] in H.
  - run_inv H. reflexivity.
  - run_inv H;
      repeat match goal with
      | Hf : soft_version_loop _ _ _ _ = _ |- _ => apply IH in Hf
      end;
      footprint;
      repeat match goal with
      | Hx : forallb _ _ = true |- _ => rewrite Hx
      end; reflexivity.
Qed.

Lemma full_info_probe_probe fuel d o d' tr :
  full_info_probe T fuel d = (o, d', tr) -> forallb probe_event tr = true.
Proof.
  unfold full_info_probe, get_software_fw_version. intros H.
  run_inv H;
    repeat match goal with
    | Hf : soft_version_loop _ _ _ _ = _ |- _ => apply soft_version_loop_probe in Hf
    | Hf : main_pix_loop _ _ _ _ = _ |- _ => apply main_pix_loop_probe in Hf
    end;
    footprint;
    repeat match goal with
    | Hx : forallb _ _ = true |- _ => rewrite Hx
    end; reflexivity.
Qed.

End Footprint.

Lemma probe_camera_events (T : Transport) (F : FloatFormat) fuel args d o d' tr :
  probe_camera T F fuel args d = (o, d', tr) -> forallb probe_event tr = true.
Proof.
  unfold probe_camera. destruct (_ || _); intros H.
  - apply listing_is_probe. eapply list_formats_listing; eauto.
  - eapply full_info_probe_probe; eauto.
Qed.

Lemma probe_event_reads (tr : list event) (r : Z) :
  forallb probe_event tr = true -> Zmem r probe_read_regs = false ->
  reads_of r tr = [].
Proof.
  intros H Hr. induction tr as [|e tr IH]; [reflexivity|].
  cbn [forallb] in H. apply andb_prop in H as [He H].
  destruct e as [r' v|r' v| |s]; cbn [reads_of]; auto.
  destruct (Z.eqb_spec r' r) as [->|_]; auto.
  cbn [probe_event] in He. congruence.
Qed.

Lemma probe_event_writes (tr : list event) (r : Z) :
  forallb probe_event tr = true ->
  Zmem r (CTRL_VALUE_REG :: cursor_regs) = false ->
  writes_of r tr = [].
Proof.
  intros H Hr. induction tr as [|e tr IH]; [reflexivity|].
  cbn [forallb] in H. apply andb_prop in H as [He H].
  destruct e as [r' v|r' v| |s]; cbn [writes_of]; auto.
  destruct (Z.eqb_spec r' r) as [->|_]; auto.
  cbn [probe_event] in He. unfold Zmem in Hr. cbn [existsb] in Hr.
  apply orb_false_elim in Hr as [Hv Hc]. unfold Zmem in He.
  rewrite Hc, Hv in He. discriminate He.
Qed.

Lemma probe_event_value (tr : list event) :
  forallb probe_event tr = true ->
  Forall (fun v => v = 0) (writes_of CTRL_VALUE_REG tr).
Proof.
  intros H. induction tr as [|e tr IH]; [constructor|].
  cbn [forallb] in H. apply andb_prop in H as [He H].
  destruct e as [r' v|r' v| |s]; cbn [writes_of]; auto.
  destruct (Z.eqb_spec r' CTRL_VALUE_REG) as [->|_]; auto.
  constructor; auto.
  cbn [probe_event] in He.
  change (Zmem CTRL_VALUE_REG cursor_regs) with false in He.
  cbn [orb] in He. apply andb_prop in He as [_ He]. lia.
Qed.

(** X11: the register footprint of a probe.  In every run of the probe of
    one camera, in either mode and whether it completes, fails or is cut
    short: every read is of one of the seventeen registers of
    [probe_read_regs]; every write is to one of the four cursor registers
    or to the control value register; and every value written to the
    control value register is 0.  So the stream switch, the device's
    sensor-id and idle registers are never touched, the control value is
    never read back, and no control is ever set to anything but 0. *)
Theorem probe_camera_footprint (T : Transport) (F : FloatFormat)
    fuel args d o d' tr :
  probe_camera T F fuel args d = (o, d', tr) ->
  (forall r, Zmem r probe_read_regs = false -> reads_of r tr = [])
  /\ (forall r, Zmem r (CTRL_VALUE_REG :: cursor_regs) = false ->
                writes_of r tr = [])
  /\ Forall (fun v => v = 0) (writes_of CTRL_VALUE_REG tr)
  /\ (forall r, In r [STREAM_ON; SENSOR_ID_REG; SYSTEM_IDLE_REG] ->
                reads_of r tr = [] /\ writes_of r tr = []).
Proof.
  intros H. apply probe_camera_events in H.
  split; [|split; [|split]].
  - intros r Hr. now apply probe_event_reads.
  - intros r Hr. now apply probe_event_writes.
  - now apply probe_event_value.
  - intros r Hr. cbn [In] in Hr.
    destruct Hr as [<- | [<- | [<- | []]]];
      (split; [apply probe_event_reads | apply probe_event_writes]);
      auto.
Qed.

(** X11 on the full probe of a camera with three controls and two
    resolutions: six writes to the control value register, all 0. *)
Lemma probe_camera_footprint_witness :
  Forall (fun v => v = 0)
    (writes_of CTRL_VALUE_REG
       (snd (probe_camera Mock.cameras Mock.float_format 10 Mock.no_args
               (Mock.fresh Mock.cam1))))
  /\ List.length
       (writes_of CTRL_VALUE_REG
          (snd (probe_camera Mock.cameras Mock.float_format 10 Mock.no_args
                  (Mock.fresh Mock.cam1)))) = 6%nat.
Proof.
  pose (R := probe_camera Mock.cameras Mock.float_format 10 Mock.no_args
               (Mock.fresh Mock.cam1)).
  destruct (probe_camera_footprint Mock.cameras Mock.float_format 10
              Mock.no_args (Mock.fresh Mock.cam1)
              (fst (fst R)) (snd (fst R)) (snd R))
    as (_ & _ & Hv & _).
  - vm_compute. reflexivity.
  - split; [exact Hv|]. vm_compute. reflexivity.
Defined.

(** X12: the listing is passive.  In every run of [list_formats],
    complete or not: no settle delay is taken, nothing is written to the
    control value register, the only registers written are the three
    cursors it pages with, and none of the identity and version registers
    is read. *)
Theorem list_formats_passive (T : Transport) (F : FloatFormat)
    fuel extended d o d' tr :
  list_formats T F fuel extended d = (o, d', tr) ->
  sleeps_of tr = O
  /\ writes_of CTRL_VALUE_REG tr = []
  /\ (forall r, In r [ DEVICE_ID_REG; DEVICE_VERSION_REG;
                       FIRMWARE_SENSOR_ID_REG; UNIQUE_ID_REG;
                       SOFT_VERSION_LEN_REG; SOFT_VERSION_REG;
                       MIPI_LANES_REG; CTRL_MIN_REG; CTRL_DEF_REG ] ->
                reads_of r tr = [])
  /\ (forall r, Zmem r [ PIXFORMAT_INDEX_REG; RESOLUTION_INDEX_REG;
                         CTRL_INDEX_REG ] = false -> writes_of r tr = []).
Proof.
  intros H. apply list_formats_listing in H.
  assert (Hs : sleeps_of tr = O).
  { induction tr as [|e tr IH]; [reflexivity|].
    cbn [forallb] in H. apply andb_prop in H as [He H].
    destruct e; cbn [sleeps_of]; auto. discriminate He. }
  assert (Hw : forall r, Zmem r [ PIXFORMAT_INDEX_REG; RESOLUTION_INDEX_REG;
                                  CTRL_INDEX_REG ] = false ->
                         writes_of r tr = []).
  { intros r Hr. induction tr as [|e tr IH]; [reflexivity|].
    cbn [forallb] in H. apply andb_prop in H as [He H].
    cbn [sleeps_of] in Hs.
    destruct e as [r' v|r' v| |s]; cbn [writes_of]; auto; try discriminate Hs.
    destruct (Z.eqb_spec r' r) as [->|_]; auto.
    cbn [listing_event] in He. congruence. }
  assert (Hr : forall r,
             Zmem r [ PIXFORMAT_TYPE_REG; PIXFORMAT_ORDER_REG;
                      RESOLUTION_INDEX_REG; FORMAT_WIDTH_REG;
                      FORMAT_HEIGHT_REG; CTRL_ID_REG; CTRL_MAX_REG ] = false ->
             reads_of r tr = []).
  { intros r Hr. clear Hs Hw. induction tr as [|e tr IH]; [reflexivity|].
    cbn [forallb] in H. apply andb_prop in H as [He H].
    destruct e as [r' v|r' v| |s]; cbn [reads_of]; auto.
    destruct (Z.eqb_spec r' r) as [->|_]; auto.
    cbn [listing_event] in He. congruence. }
  split; [exact Hs|]. split; [apply Hw; reflexivity|].
  split; [|exact Hw].
  intros r Hin. cbn [In] in Hin.
  repeat (destruct Hin as [<- | Hin]; [apply Hr; reflexivity|]).
  destruct Hin.
Qed.

(** X12 on the extended listing of a camera with two resolutions. *)
Lemma list_formats_passive_witness :
  sleeps_of (snd (list_formats Mock.cameras Mock.float_format 10 true
                    (Mock.fresh Mock.cam1))) = O
  /\ writes_of CTRL_VALUE_REG
       (snd (list_formats Mock.cameras Mock.float_format 10 true
               (Mock.fresh Mock.cam1))) = [].
Proof.
  pose (R := list_formats Mock.cameras Mock.float_format 10 true
               (Mock.fresh Mock.cam1)).
  destruct (list_formats_passive Mock.cameras Mock.float_format 10 true
              (Mock.fresh Mock.cam1) (fst (fst R)) (snd (fst R)) (snd R))
    as (Hs & Hw & _).
  - vm_compute. reflexivity.
  - split; [exact Hs | exact Hw].
Defined.

(** ** The interval line and the frame rate 0 *)

Lemma bind_ext {T : Transport} {A B} (m : M T A) (k1 k2 : A -> M T B) d :
  (forall a d1, k1 a d1 = k2 a d1) -> bind m k1 d = bind m k2 d.
Proof.
  intros Hk. unfold bind. destruct (m d) as [[[a|e|] d1] t1]; auto.
  now rewrite Hk.
Qed.

Lemma list_formats_rows_ext (T : Transport) (F1 F2 : FloatFormat)
    extended fourcc pix_name (rs : list resolution) :
  (forall v, v <> 0 ->
     fmt_interval_3f F1 v = fmt_interval_3f F2 v
     /\ fmt_fps_3f F1 v = fmt_fps_3f F2 v) ->
  forall d,
    for_each rs (list_formats_row T F1 extended fourcc pix_name) d
    = for_each rs (list_formats_row T F2 extended fourcc pix_name) d.
Proof.
  intros Hagree.
  assert (Hrow : forall r d,
             list_formats_row T F1 extended fourcc pix_name r d
             = list_formats_row T F2 extended fourcc pix_name r d).
  { intros r d. unfold list_formats_row.
    apply bind_ext. intros _ d1.
    destruct extended; [|reflexivity].
    apply bind_ext. intros _ d2.
    destruct (max_fps r) as [v|]; cbn [truthy]; [|reflexivity].
    destruct (Z.eqb_spec v 0) as [->|Hv]; cbn [negb]; [reflexivity|].
    unfold interval_line. destruct (Hagree v Hv) as [-> ->]. reflexivity. }
  induction rs as [|r rs IH]; intros d; cbn [for_each]; [reflexivity|].
  unfold bind. rewrite Hrow.
  destruct (list_formats_row T F2 _ _ _ r d) as [[[[]|e|] d1] t1]; auto.
  now rewrite IH.
Qed.

(** X13: the listing takes the reciprocal of no frame rate that is 0 or
    absent.  Two renderings of the [.3f] fields that agree on every
    nonzero frame rate give the same run of [list_formats], whatever they
    do at 0: the interval line is formatted behind the test [if fps], so
    the division [1/fps] is never evaluated at 0. *)
Theorem list_formats_no_zero_interval (T : Transport) (F1 F2 : FloatFormat)
    fuel extended d :
  (forall v, v <> 0 ->
     fmt_interval_3f F1 v = fmt_interval_3f F2 v
     /\ fmt_fps_3f F1 v = fmt_fps_3f F2 v) ->
  list_formats T F1 fuel extended d = list_formats T F2 fuel extended d.
Proof.
  intros Hagree. unfold list_formats.
  repeat (apply bind_ext; intros).
  now apply list_formats_rows_ext.
Qed.

(** X13 on a camera whose Framerate control has the maximum 0, with a
    rendering that has no number to give at 0: the extended listing is the
    same run, and it has no interval line. *)
Lemma list_formats_no_zero_interval_witness :
  list_formats Mock.cameras Mock.float_format 10 true
    (Mock.fresh Mock.cam_zero_fps)
  = list_formats Mock.cameras
      {| fmt_interval_3f := fun fps =>
           if fps =? 0 then "ZeroDivisionError"
           else fmt_interval_3f Mock.float_format fps;
         fmt_fps_3f := fmt_fps_3f Mock.float_format |}
      10 true (Mock.fresh Mock.cam_zero_fps)
  /\ reads_of CTRL_MAX_REG
       (snd (list_formats Mock.cameras Mock.float_format 10 true
               (Mock.fresh Mock.cam_zero_fps))) = [0]
  /\ prints_of
       (snd (list_formats Mock.cameras Mock.float_format 10 true
               (Mock.fresh Mock.cam_zero_fps)))
     = [ "ioctl: VIDIOC_ENUM_FMT"; "        Type: Video Capture" ++ nl;
         "        [0]: 'UYVY' (YUV422_8BIT)";
         "                Size: Discrete 640x480" ].
Proof.
  split; [|split; vm_compute; reflexivity].
  apply list_formats_no_zero_interval.
  intros v Hv. cbn [fmt_interval_3f fmt_fps_3f].
  destruct (Z.eqb_spec v 0) as [->|_]; [contradiction|]. split; reflexivity.
Defined.

(** ** The pixel-format cursor after a full probe *)

Section Cursor.

Variable T : Transport.

Lemma soft_version_loop_regs (indices : list Z) : forall version d o d' tr,
  soft_version_loop T indices version d = (o, d', tr) ->
  only_regs [SOFT_VERSION_INDEX_REG; SOFT_VERSION_REG] tr = true.
Proof.
  induction indices as [|i indices IH]; intros version d o d' tr H;
    cbn [soft_version_loop] in H.
  - run_inv H. reflexivity.
  - run_inv H; rewrite ?only_regs_app;
      repeat match goal with
      | Hf : soft_version_loop _ _ _ _ = _ |- _ => apply IH in Hf; rewrite Hf
      end; reflexivity.
Qed.

Lemma get_software_fw_version_regs d o d' tr :
  get_software_fw_version T d = (o, d', tr) ->
  only_regs [SOFT_VERSION_LEN_REG; SOFT_VERSION_INDEX_REG; SOFT_VERSION_REG] tr
  = true.
Proof.
  unfold get_software_fw_version. intros H.
  run_inv H; rewrite ?only_regs_app;
    repeat match goal with
    | Hf : soft_version_loop _ _ _ _ = _ |- _ =>
        apply soft_version_loop_regs in Hf;
        apply (only_regs_weaken _ [ SOFT_VERSION_LEN_REG; SOFT_VERSION_INDEX_REG;
                                    SOFT_VERSION_REG ]) in Hf;
        [ rewrite Hf
        | intros r; unfold Zmem; cbn [existsb];
          rewrite ?orb_true_iff; tauto ]
    end; reflexivity.
Qed.

Lemma soft_version_loop_quiet (indices : list Z) : forall version d o d' tr,
  soft_version_loop T indices version d = (o, d', tr) -> prints_of tr = [].
Proof.
  induction indices as [|i indices IH]; intros version d o d' tr H;
    cbn [soft_version_loop] in H.
  - run_inv H. reflexivity.
  - run_inv H; obs;
      repeat match goal with
      | Hf : soft_version_loop _ _ _ _ = _ |- _ => apply IH in Hf; rewrite Hf
      end; reflexivity.
Qed.

Lemma get_software_fw_version_quiet d o d' tr :
  get_software_fw_version T d = (o, d', tr) -> prints_of tr = [].
Proof.
  unfold get_software_fw_version. intros H.
  run_inv H; obs;
    repeat match goal with
    | Hf : soft_version_loop _ _ _ _ = _ |- _ =>
        apply soft_version_loop_quiet in Hf; rewrite Hf
    end; reflexivity.
Qed.

End Cursor.

Lemma log_line_not_pixelformat (c : ascii) (s : string) :
  c <> "P"%char ->
  String.prefix pixelformat_prefix (log_line (String c s) INFO) = false.
Proof.
  intros Hc. unfold pixelformat_prefix, log_line.
  cbn [String.append String.prefix].
  repeat match goal with
  | |- context [ascii_dec ?x ?y] =>
      destruct (ascii_dec x y); try congruence; try reflexivity
  | |- context [Ascii.eqb ?x ?y] =>
      destruct (Ascii.eqb_spec x y); try congruence; try reflexivity
  end.
Qed.

(** X14: a full probe that completes leaves the pixel-format cursor at 0.
    Its writes to the pixel-format index register are 0, 1, ..., k for the
    k formats found, then 0 again; the reads of that register are the k
    indices read back and the sentinel; and the run ends with the sentinel
    read followed by the write of 0. *)
Theorem full_probe_resets_format_cursor (T : Transport) fuel d d' tr :
  full_info_probe T fuel d = (Ok tt, d', tr) ->
  exists vs pre,
    ~ In NO_DATA_AVAILABLE vs
    /\ reads_of PIXFORMAT_INDEX_REG tr = (vs ++ [NO_DATA_AVAILABLE])%list
    /\ writes_of PIXFORMAT_INDEX_REG tr
       = (zrange 0 (S (List.length vs)) ++ [0])%list
    /\ count_lines pixelformat_prefix tr = List.length vs
    /\ tr = (pre ++ [ EvRead PIXFORMAT_INDEX_REG NO_DATA_AVAILABLE;
                      EvWrite PIXFORMAT_INDEX_REG 0 ])%list.
Proof.
  unfold full_info_probe. intros H.
  run_inv H; try discriminate.
  repeat match goal with
  | Hf : get_software_fw_version _ _ = _ |- _ =>
      let Hr := fresh "Hregs" in
      pose proof (get_software_fw_version_regs _ _ _ _ _ Hf) as Hr;
      pose proof (only_regs_reads _ _ PIXFORMAT_INDEX_REG Hr eq_refl);
      pose proof (only_regs_writes _ _ PIXFORMAT_INDEX_REG Hr eq_refl);
      pose proof (count_lines_quiet pixelformat_prefix _
                    (get_software_fw_version_quiet _ _ _ _ _ Hf));
      clear Hf
  | Hf : main_pix_loop _ _ _ _ = _ |- _ =>
      apply main_pix_loop_run in Hf
        as [(vs & _ & Hvs & Hreads & Hwrites & Hcnt & _ & pre & Htr)
           | ([Hx|Hx] & _)]; try discriminate Hx
  end.
  exists vs. eexists.
  split; [exact Hvs|].
  rewrite ?count_lines_app. obs.
  rewrite ?count_lines_read, ?count_lines_write, ?count_lines_nil,
    ?count_lines_print.
  rewrite !log_line_not_pixelformat by discriminate.
  repeat match goal with
  | Hx : reads_of _ _ = _ |- _ => rewrite Hx
  | Hx : writes_of _ _ = _ |- _ => rewrite Hx
  | Hx : count_lines _ _ = _ |- _ => rewrite Hx
  end.
  cbn [app Nat.add]. rewrite ?app_nil_r, ?Nat.add_0_r.
  split; [reflexivity|]. split; [reflexivity|]. split; [reflexivity|].
  rewrite Htr.
  repeat rewrite app_comm_cons.
  rewrite !app_assoc.
  rewrite <- (app_assoc _ [EvRead PIXFORMAT_INDEX_REG NO_DATA_AVAILABLE]
                [EvWrite PIXFORMAT_INDEX_REG 0]).
  reflexivity.
Qed.

(** X14 on the full probe of a camera with one pixel format. *)
Lemma full_probe_resets_format_cursor_witness :
  writes_of PIXFORMAT_INDEX_REG
    (snd (full_info_probe Mock.cameras 10 (Mock.fresh Mock.cam1)))
  = [0; 1; 0].
Proof.
  pose (R := full_info_probe Mock.cameras 10 (Mock.fresh Mock.cam1)).
  destruct (full_probe_resets_format_cursor Mock.cameras 10
              (Mock.fresh Mock.cam1) (snd (fst R)) (snd R))
    as (vs & pre & _ & Hreads & Hwrites & _).
  - vm_compute. reflexivity.
  - unfold R in *. rewrite Hwrites.
    assert (Hlen : List.length vs = 1%nat).
    { apply (f_equal (@List.length Z)) in Hreads.
      rewrite length_app in Hreads. cbn [List.length] in Hreads.
      assert (E : List.length
                    (reads_of PIXFORMAT_INDEX_REG
                       (snd (full_info_probe Mock.cameras 10
                               (Mock.fresh Mock.cam1)))) = 2%nat)
        by (vm_compute; reflexivity).
      rewrite E in Hreads. lia. }
    rewrite Hlen. reflexivity.
Defined.
